(** * jupyterhub-monitoring: the Elasticsearch client wrapper and the
      e-mail sender, embedded and verified

    Sources embedded here:
    - [src/app/elasticsearch_client.py]  (class [ElasticsearchClient])
    - [src/app/send_email.py]            (functions [create_message],
      [send_email], [parse_arguments], [main])

    The Python code talks to the outside world (an Elasticsearch
    service, the file system, an SMTP server).  Every such call is
    modelled as a transition of an abstract backend state that may
    return a value or raise; the wrapper code itself is written in a
    small state-and-exception monad, and each backend call is appended
    to a log so that statements about which requests were issued, and in
    which order, can be made. *)

From Stdlib Require Import ZArith List String Ascii Bool Lia.
From stdpp Require Import base option list gmap strings pretty.
Import ListNotations.

Set Implicit Arguments.
Set Warnings "-register-all".
Local Open Scope list_scope.

(* ===================================================================== *)
(** * Python values and exceptions *)
(* ===================================================================== *)

(** JSON-compatible values ([Any] in the type hints). *)
Inductive json : Type :=
  | JNull
  | JBool (b : bool)
  | JInt (n : Z)
  | JStr (s : string)
  | JList (l : list json)
  | JDict (kv : list (string * json)).

(** [Dict[str, Any]]: documents, queries, request bodies and the
    acknowledgments of the backend. *)
Definition Dict : Type := list (string * json).

(** The classes of the exceptions that occur.  Every value of type
    [exception] is an instance of Python's [Exception]; the signals
    below [BaseException] only ([KeyboardInterrupt], [GeneratorExit],
    [SystemExit]) are no failures of a call and are modelled where they
    matter ([gen_close] for [GeneratorExit], [parse_arguments] for
    [SystemExit]). *)
Inductive exc_class : Type :=
  | ConnectionError                 (* builtin, a subclass of OSError *)
  | OSError
  | SMTPException
  | OtherException (name : string). (* any other subclass of Exception *)

Inductive exception : Type :=
  | mkException (cls : exc_class) (msg : string) (cause : option exception).

Definition exc_type (e : exception) : exc_class :=
  match e with mkException c _ _ => c end.

(** [str(e)] *)
Definition str (e : exception) : string :=
  match e with mkException _ m _ => m end.

(** [e.__cause__], set by [raise ... from e] *)
Definition __cause__ (e : exception) : option exception :=
  match e with mkException _ _ c => c end.

(** [isinstance(e, (OSError, smtplib.SMTPException))] *)
Definition isinstance_OSError_or_SMTPException (e : exception) : bool :=
  match exc_type e with
  | ConnectionError | OSError | SMTPException => true
  | OtherException _ => false
  end.

(** [sub in s] on Python strings. *)
Definition contains (sub s : string) : Prop :=
  exists pre post : string, s = pre +:+ sub +:+ post.

(* ===================================================================== *)
(** * A state-and-exception monad *)
(* ===================================================================== *)

Inductive result (A : Type) : Type :=
  | Ok (a : A)
  | Raise (e : exception).
Arguments Ok {A} a.
Arguments Raise {A} e.

Definition M (W A : Type) : Type := W -> result A * W.

Definition ret {W A} (a : A) : M W A := fun w => (Ok a, w).

Definition raise {W A} (e : exception) : M W A := fun w => (Raise e, w).

Definition bind {W A B} (m : M W A) (k : A -> M W B) : M W B :=
  fun w =>
    match m w with
    | (Ok a, w') => k a w'
    | (Raise e, w') => (Raise e, w')
    end.

(** [try: body  except Exception as e: handler(e)] *)
Definition try_except {W A} (body : M W A) (handler : exception -> M W A)
  : M W A :=
  fun w =>
    match body w with
    | (Ok a, w') => (Ok a, w')
    | (Raise e, w') => handler e w'
    end.

(** [try: body  finally: cleanup].  As in Python, an exception raised
    by [cleanup] replaces the outcome of [body]. *)
Definition try_finally {W A} (body : M W A) (cleanup : M W unit) : M W A :=
  fun w =>
    match body w with
    | (r, w') =>
        match cleanup w' with
        | (Ok _, w'') => (r, w'')
        | (Raise e, w'') => (Raise e, w'')
        end
    end.

Declare Scope monad_scope.
Delimit Scope monad_scope with monad.
Notation "x <- m ;; k" := (bind m (fun x => k))
  (at level 100, m at next level, right associativity) : monad_scope.
Local Open Scope monad_scope.

(** Python truthiness of an [Optional[str]]: [None] and the empty string
    are false. *)
Definition truthy (s : option string) : bool :=
  match s with
  | Some (String _ _) => true
  | _ => false
  end.

(** An [Optional[str]] that is true, or nothing. *)
Definition nonempty (s : option string) : option string :=
  if truthy s then s else None.

(** [x is not None] *)
Definition is_not_None {A} (x : option A) : bool :=
  match x with
  | Some _ => true
  | None => false
  end.

(* ===================================================================== *)
(** * The Elasticsearch service as seen by the wrapper *)
(* ===================================================================== *)

(** The keyword arguments [connection_params] the official client is
    constructed from; an absent key is [None]. *)
Record connection_params : Type := {
  hosts : list string;
  api_key : string;
  ca_certs : option string;
  verify_certs : option bool
}.

(** [connection_params["ca_certs"] = ca_cert] and
    [connection_params["verify_certs"] = True] (lines 44-45). *)
Definition add_ca_cert (p : connection_params) (ca_cert : string)
  : connection_params :=
  {| hosts := hosts p; api_key := api_key p;
     ca_certs := Some ca_cert; verify_certs := Some true |}.

(** Lines 36-45 of [__init__]. *)
Definition build_connection_params (endpoint api_key : string)
    (ca_cert : option string) : connection_params :=
  let connection_params :=
    {| hosts := [endpoint]; api_key := api_key;
       ca_certs := None; verify_certs := None |} in
  match ca_cert with
  | Some c => add_ca_cert connection_params c
  | None => connection_params
  end.

(** One element of [response["hits"]["hits"]]. *)
Record Hit : Type := {
  _id : string;
  _source : Dict
}.

(** The response envelope of [search] and [scroll]:
    [response.get("_scroll_id")] and [response["hits"]["hits"]]. *)
Record Response : Type := {
  _scroll_id : option string;
  hits_hits : list Hit
}.

(** The methods of the official client the wrapper calls, as
    transitions of the state [S] of the service; the first argument is
    the configuration the client object was constructed from.
    Constructing the client object (line 48) sends nothing. *)
Class Elasticsearch (S : Type) : Type := {
  es_ping : connection_params -> S -> result bool * S;
  es_index :
    connection_params -> string -> option string -> Dict -> S ->
    result Dict * S;
  es_search :
    connection_params -> string -> Dict -> string -> Z -> S ->
    result Response * S;
  es_scroll :
    connection_params -> option string -> string -> S -> result Response * S;
  es_clear_scroll : connection_params -> string -> S -> result unit * S;
  es_close : connection_params -> S -> result unit * S
}.

(** A request together with what the service answered. *)
Inductive event : Type :=
  | EvPing (r : result bool)
  | EvIndex (index : string) (id : option string) (document : Dict)
            (r : result Dict)
  | EvSearch (index : string) (body : Dict) (scroll : string) (size : Z)
             (r : result Response)
  | EvScroll (scroll_id : option string) (scroll : string)
             (r : result Response)
  | EvClearScroll (scroll_id : string) (r : result unit)
  | EvClose (r : result unit).

(** The world the wrapper runs in: the service and the log of the
    requests sent so far. *)
Record world (S : Type) : Type := {
  backend : S;
  log : list event
}.

Definition request {S A} (op : S -> result A * S) (ev : result A -> event)
  : M (world S) A :=
  fun w =>
    match op (backend w) with
    | (r, s') => (r, {| backend := s'; log := log w ++ [ev r] |})
    end.

(* ===================================================================== *)
(** * [class ElasticsearchClient]  (src/app/elasticsearch_client.py) *)
(* ===================================================================== *)

Module ElasticsearchClient.
Section Client.
Context {B : Type} `{ES : Elasticsearch B}.

Record t : Type := { _client : connection_params }.

(** [__init__], lines 18-57. *)
Definition __init__ (endpoint api_key : string) (ca_cert : option string)
  : M (world B) t :=
  let connection_params :=
    build_connection_params endpoint api_key ca_cert in
  let self := {| _client := connection_params |} in
  try_except
    (alive <- request (es_ping (_client self)) EvPing ;;
     if negb alive
     then raise (mkException ConnectionError
                   ("Unable to connect to Elasticsearch at " +:+ endpoint)
                   None)
     else ret self)
    (fun e =>
       raise (mkException ConnectionError
                ("Failed to connect to Elasticsearch at " +:+ endpoint
                 +:+ ": " +:+ str e)
                (Some e))).

(** [upload_document], lines 59-81. *)
Definition upload_document (self : t) (index : string) (document : Dict)
    (doc_id : option string) : M (world B) Dict :=
  request (es_index (_client self) index doc_id document)
          (EvIndex index doc_id document).

(** [upload_documents], lines 83-108: the [for] loop with its
    accumulator [results]. *)
Fixpoint upload_documents_loop (self : t) (index : string)
    (documents : list Dict) (results : list Dict) : M (world B) (list Dict) :=
  match documents with
  | [] => ret results
  | document :: documents' =>
      result <- upload_document self index document None ;;
      upload_documents_loop self index documents' (results ++ [result])
  end.

Definition upload_documents (self : t) (index : string)
    (documents : list Dict) : M (world B) (list Dict) :=
  upload_documents_loop self index documents [].

(** [close], lines 208-215. *)
Definition close (self : t) : M (world B) unit :=
  request (es_close (_client self)) EvClose.

(** ** [query], lines 110-206 *)

(** Line 169. *)
Definition scroll_timeout : string := "2m".

(** Default of the parameter [size], line 115. *)
Definition default_size : Z := 100.

(** Lines 152-166: the body of the search request. *)
Definition query_body (query : option Dict) (query_string : option string)
  : Dict :=
  match query with
  | Some q => [("query", JDict q)]
  | None =>
      match query_string with
      | Some qs =>
          [("query", JDict [("query_string", JDict [("query", JStr qs)])])]
      | None => [("query", JDict [("match_all", JDict [])])]
      end
  end.

(** [query] contains [yield]: it is a generator function.  A
    generator object is in one of three states: created and not yet
    started (it holds the arguments of the call, and no line of the
    body has run); suspended at a [yield]; finished.

    Both [yield]s (lines 184 and 196) sit in a [for hit in hits] loop
    inside the [try] block and are followed by the test [while hits]
    of line 187, so a suspended generator is described by the local
    variables [scroll_id] and [hits] and by the hits the running
    [for] loop has not reached yet. *)
Inductive generator : Type :=
  | Created (self : t) (index : string) (query : option Dict)
            (query_string : option string) (size : Z)
  | Suspended (self : t) (scroll_id : option string)
              (hits pending : list Hit)
  | Finished.

(** What [next(gen)] gives when it does not fail. *)
Inductive item : Type :=
  | Yield (document : Dict)
  | StopIteration.

(** Calling the generator function runs none of its body. *)
Definition query (self : t) (index : string) (query : option Dict)
    (query_string : option string) (size : Z) : M (world B) generator :=
  ret (Created self index query query_string size).

(** The [finally] clause, lines 198-206. *)
Definition clear_scroll_finally (self : t) (scroll_id : option string)
  : M (world B) unit :=
  match scroll_id with
  | Some sid =>
      if truthy (Some sid)
      then try_except
             (request (es_clear_scroll (_client self) sid)
                      (EvClearScroll sid))
             (fun _ => ret tt)
      else ret tt
  | None => ret tt
  end.

(** Control leaves the [try] block with outcome [r]: the [finally]
    clause runs and the generator is finished. *)
Definition leave_try (self : t) (scroll_id : option string)
    (r : result item) (w : world B) : result item * generator * world B :=
  match try_finally (fun w0 => (r, w0))
                    (clear_scroll_finally self scroll_id) w with
  | (r', w') => (r', Finished, w')
  end.

(** The [for hit in hits] loop over a page that was just received. *)
Definition for_hit_in_hits (self : t) (scroll_id : option string)
    (hits : list Hit) (w : world B) : result item * generator * world B :=
  match hits with
  | hit :: pending =>
      (Ok (Yield (_source hit)), Suspended self scroll_id hits pending, w)
  | [] =>
      (* the loop body does not run; [while hits] is false *)
      leave_try self scroll_id (Ok StopIteration) w
  end.

(** Resuming after a [yield]: the [for] loop goes on; when it is
    over, [while hits] (line 187) decides whether another page is
    fetched (lines 188-196). *)
Definition resume (self : t) (scroll_id : option string)
    (hits pending : list Hit) (w : world B)
  : result item * generator * world B :=
  match pending with
  | hit :: pending' =>
      (Ok (Yield (_source hit)), Suspended self scroll_id hits pending', w)
  | [] =>
      match hits with
      | [] => leave_try self scroll_id (Ok StopIteration) w
      | _ :: _ =>
          match request (es_scroll (_client self) scroll_id scroll_timeout)
                        (EvScroll scroll_id scroll_timeout) w with
          | (Raise e, w1) => leave_try self scroll_id (Raise e) w1
          | (Ok response, w1) =>
              for_hit_in_hits self (_scroll_id response) (hits_hits response) w1
          end
      end
  end.

(** [next(gen)] *)
Definition gen_next (g : generator) (w : world B)
  : result item * generator * world B :=
  match g with
  | Created self index query query_string size =>
      let query_body := query_body query query_string in
      match request
              (es_search (_client self) index query_body scroll_timeout size)
              (EvSearch index query_body scroll_timeout size) w with
      | (Raise e, w1) =>
          (* raised before the [try] block is entered *)
          (Raise e, Finished, w1)
      | (Ok response, w1) =>
          for_hit_in_hits self (_scroll_id response) (hits_hits response) w1
      end
  | Suspended self scroll_id hits pending =>
      resume self scroll_id hits pending w
  | Finished => (Ok StopIteration, Finished, w)
  end.

(** [gen.close()], which is also what happens to a generator that is
    abandoned and finalised: [GeneratorExit] is raised at the [yield]
    where the generator is suspended, so the [finally] clause runs.  A
    generator that was never started, or is finished, runs nothing. *)
Definition gen_close (g : generator) (w : world B)
  : result unit * generator * world B :=
  match g with
  | Created _ _ _ _ _ => (Ok tt, Finished, w)
  | Suspended self scroll_id _ _ =>
      match clear_scroll_finally self scroll_id w with
      | (r, w') => (r, Finished, w')
      end
  | Finished => (Ok tt, Finished, w)
  end.

(** ** Consumers of the generator *)

(** [list(gen)]: pulls until the generator stops or fails.  [None]
    when [fuel] pulls were not enough. *)
Fixpoint consume (fuel : nat) (g : generator) (acc : list Dict)
    (w : world B) : option (result (list Dict) * generator * world B) :=
  match fuel with
  | O => None
  | S fuel' =>
      match gen_next g w with
      | (Ok (Yield d), g', w') => consume fuel' g' (acc ++ [d]) w'
      | (Ok StopIteration, g', w') => Some (Ok acc, g', w')
      | (Raise e, g', w') => Some (Raise e, g', w')
      end
  end.

(** What a consumer can do with a generator. *)
Inductive action : Type := Next | Close.

Definition act (a : action) (g : generator) (w : world B)
  : generator * world B :=
  match a with
  | Next => match gen_next g w with (_, g', w') => (g', w') end
  | Close => match gen_close g w with (_, g', w') => (g', w') end
  end.

Fixpoint drive (actions : list action) (g : generator) (w : world B)
  : generator * world B :=
  match actions with
  | [] => (g, w)
  | a :: actions' =>
      match act a g w with (g', w') => drive actions' g' w' end
  end.

(** ** Observing the log *)

(** The requests the [finally] clause sends when it runs with
    [scroll_id] against the service in state [s]. *)
Definition release_events (self : t) (scroll_id : option string) (s : B)
  : list event :=
  match nonempty scroll_id with
  | Some sid => [EvClearScroll sid (fst (es_clear_scroll (_client self) sid s))]
  | None => []
  end.

(** The cursor a query holds after the requests [evs].  It is the
    token carried by the latest response of [search] or [scroll] (the
    token may change from one response to the next, and only the latest
    one counts; a response without a token, or with an empty one,
    leaves nothing to hold), until a [clear_scroll] for that token has
    been sent, whatever the service answered to it. *)
Definition track (held : option string) (ev : event) : option string :=
  match ev with
  | EvSearch _ _ _ _ (Ok response) => nonempty (_scroll_id response)
  | EvScroll _ _ (Ok response) => nonempty (_scroll_id response)
  | EvClearScroll sid _ =>
      if bool_decide (held = Some sid) then None else held
  | _ => held
  end.

Definition held_cursor (evs : list event) : option string :=
  fold_left track evs None.

(** The token a generator in a given state holds. *)
Definition holds (g : generator) : option string :=
  match g with
  | Suspended _ scroll_id _ _ => nonempty scroll_id
  | _ => None
  end.

(** The requests by which [documents] are uploaded to [index] without
    an id and acknowledged with [acks], one after the other. *)
Definition index_events (index : string) (documents acks : list Dict)
  : list event :=
  zip_with (fun d a => EvIndex index None d (Ok a)) documents acks.

(** How many uploads the service acknowledged. *)
Definition acknowledged (ev : event) : bool :=
  match ev with
  | EvIndex _ _ _ (Ok _) => true
  | _ => false
  end.

Definition successes (evs : list event) : nat :=
  length (List.filter acknowledged evs).

(** A search or scroll request that failed with [e]. *)
Definition failed_fetch (e : exception) (ev : event) : Prop :=
  match ev with
  | EvSearch _ _ _ _ (Raise e') => e' = e
  | EvScroll _ _ (Raise e') => e' = e
  | _ => False
  end.

(** ** The context manager, lines 217-223 *)

(** [__enter__] *)
Definition __enter__ (self : t) : M (world B) t := ret self.

(** [__exit__]: closes the client and returns [None], whatever the
    exception it is told about. *)
Definition __exit__ (self : t) (exc : option exception) : M (world B) unit :=
  close self.

(** [with self as c: body(c)].  [__exit__] returns [None], which is
    false: an exception of the body is raised again once [__exit__] has
    run, and an exception raised by [__exit__] takes its place. *)
Definition with_statement {A} (self : t) (body : t -> M (world B) A)
  : M (world B) A :=
  c <- __enter__ self ;;
  fun w =>
    match body c w with
    | (Ok a, w1) => (_ <- __exit__ self None ;; ret a) w1
    | (Raise e, w1) => (_ <- __exit__ self (Some e) ;; raise e) w1
    end.

(** ** Observing the generator *)

(** The hits a request brought back. *)
Definition fetched (ev : event) : list Hit :=
  match ev with
  | EvSearch _ _ _ _ (Ok response) => hits_hits response
  | EvScroll _ _ (Ok response) => hits_hits response
  | _ => []
  end.

Definition received (evs : list event) : list Hit := flat_map fetched evs.

(** The hits of the current page a generator has still to yield. *)
Definition pending_of (g : generator) : list Hit :=
  match g with
  | Suspended _ _ _ pending => pending
  | _ => []
  end.

(** A search or scroll request. *)
Definition is_fetch (ev : event) : bool :=
  match ev with
  | EvSearch _ _ _ _ _ => true
  | EvScroll _ _ _ => true
  | _ => false
  end.

(** The order in which a query may talk to the service: one search;
    then scrolls, each with the token of the response before it; no
    scroll after an empty page or a failed request; at most one
    [clear_scroll], for the token held and only if it is a non-empty
    string, after which nothing is sent.  Every search and scroll asks
    for the retention window [scroll_timeout]. *)
Inductive phase : Type :=
  | Idle
  | Streaming (token : option string)
  | Ending (token : option string)
  | Released.

Definition after_fetch (held : option string) (r : result Response) : phase :=
  match r with
  | Ok response =>
      match hits_hits response with
      | [] => Ending (_scroll_id response)
      | _ :: _ => Streaming (_scroll_id response)
      end
  | Raise _ => Ending held
  end.

Definition protocol_step (ph : phase) (ev : event) : option phase :=
  match ph, ev with
  | Idle, EvSearch _ _ scroll _ r =>
      if String.eqb scroll scroll_timeout
      then Some (after_fetch None r) else None
  | Streaming held, EvScroll scroll_id scroll r =>
      if bool_decide (scroll_id = held) && String.eqb scroll scroll_timeout
      then Some (after_fetch held r) else None
  | Streaming held, EvClearScroll sid _ =>
      if bool_decide (nonempty held = Some sid) then Some Released else None
  | Ending held, EvClearScroll sid _ =>
      if bool_decide (nonempty held = Some sid) then Some Released else None
  | _, _ => None
  end.

Definition protocol (evs : list event) (ph : phase) : option phase :=
  fold_left
    (fun o ev => match o with Some ph' => protocol_step ph' ev | None => None end)
    evs (Some ph).

(** The phase a generator in a given state is in, if that is
    determined. *)
Definition in_phase (g : generator) (ph : phase) : Prop :=
  match g with
  | Created _ _ _ _ _ => ph = Idle
  | Suspended _ scroll_id _ _ => ph = Streaming scroll_id
  | Finished => True
  end.

End Client.
End ElasticsearchClient.

(* ===================================================================== *)
(** * [src/app/send_email.py] *)
(* ===================================================================== *)

Module send_email.

Definition Path : Type := string.

(** [MIMEText(content, subtype)] *)
Record MIMEText : Type := {
  content : string;
  text_subtype : string
}.

(** A [MIMEMultipart] message: its subtype, its headers in the order
    they were set, and the attached parts. *)
Record MIMEMultipart : Type := {
  subtype : string;
  headers : list (string * string);
  parts : list MIMEText
}.

(** The [argparse.Namespace] built by the parser of
    [parse_arguments] (lines 98-149). *)
Record Namespace : Type := {
  sender_email : string;
  recipient_email : string;
  sender_name : option string;
  recipient_name : option string;
  smtp_host : string;
  smtp_port : Z;
  no_ssl : bool;
  text_file : option Path;
  html_file : option Path
}.

(** [parse_arguments] returns a namespace or leaves through
    [SystemExit], which is not an [Exception]. *)
Inductive parsed : Type :=
  | Args (args : Namespace)
  | SystemExit (code : Z).

(** What the script uses from its host: [argparse] over [sys.argv],
    the file system, and SMTP.  One SMTP transition stands for a whole
    [with smtplib.SMTP...(host, port) as server:
    server.send_message(...)] block: connecting, sending and
    quitting. *)
Class Host (S : Type) : Type := {
  parse_args : S -> result parsed * S;
  path_exists : Path -> S -> result bool * S;
  read_text : Path -> S -> result string * S;
  formataddr : string -> string -> string;
  SMTP_SSL_send_message :
    string -> Z -> MIMEMultipart -> string -> string -> S -> result unit * S;
  SMTP_send_message :
    string -> Z -> MIMEMultipart -> string -> string -> S -> result unit * S
}.

(** The running script: its host and what it printed. *)
Record process (S : Type) : Type := {
  host : S;
  stdout : list string;
  stderr : list string
}.

Section Script.
Context {H : Type} `{HO : Host H}.

Definition syscall {A} (op : H -> result A * H) : M (process H) A :=
  fun p =>
    match op (host p) with
    | (r, h') => (r, {| host := h'; stdout := stdout p; stderr := stderr p |})
    end.

(** [print(s)] *)
Definition print (s : string) : M (process H) unit :=
  fun p =>
    (Ok tt, {| host := host p; stdout := stdout p ++ [s];
               stderr := stderr p |}).

(** [print(s, file=sys.stderr)] *)
Definition print_stderr (s : string) : M (process H) unit :=
  fun p =>
    (Ok tt, {| host := host p; stdout := stdout p;
               stderr := stderr p ++ [s] |}).

(** [create_message], lines 13-57. *)
Definition create_message (sender_name : option string)
    (sender_email : string) (recipient_name : option string)
    (recipient_email : string) (text_file html_file : option Path)
  : M (process H) MIMEMultipart :=
  let from :=
    match nonempty sender_name with
    | Some name => formataddr name sender_email
    | None => sender_email
    end in
  let to :=
    match nonempty recipient_name with
    | Some name => formataddr name recipient_email
    | None => recipient_email
    end in
  text_parts <-
    match text_file with
    | Some f =>
        text_content <- syscall (read_text f) ;;
        ret [{| content := text_content; text_subtype := "plain" |}]
    | None => ret []
    end ;;
  html_parts <-
    match html_file with
    | Some f =>
        html_content <- syscall (read_text f) ;;
        ret [{| content := html_content; text_subtype := "html" |}]
    | None => ret []
    end ;;
  ret {| subtype := "alternative";
         headers := [("From", from); ("To", to)];
         parts := text_parts ++ html_parts |}.

(** [send_email], lines 60-83. *)
Definition send_email (smtp_host : string) (smtp_port : Z) (use_ssl : bool)
    (sender_email recipient_email : string) (message : MIMEMultipart)
  : M (process H) unit :=
  if use_ssl
  then syscall (SMTP_SSL_send_message smtp_host smtp_port message
                                      sender_email recipient_email)
  else syscall (SMTP_send_message smtp_host smtp_port message
                                  sender_email recipient_email).

(** [parser.error(message)]: prints the message and exits with
    status 2. *)
Definition parser_error (message : string) : M (process H) parsed :=
  _ <- print_stderr message ;;
  ret (SystemExit 2).

(** [if file and not file.exists(): parser.error(f"...: {file}")],
    lines 158-161; a [Path] object is always true, so [if file] tests
    [file is not None]. *)
Definition require_exists (label : string) (file : option Path)
    (k : M (process H) parsed) : M (process H) parsed :=
  match file with
  | Some f =>
      found <- syscall (path_exists f) ;;
      if negb found then parser_error (label +:+ f) else k
  | None => k
  end.

(** [parse_arguments], lines 86-163. *)
Definition parse_arguments : M (process H) parsed :=
  p <- syscall parse_args ;;
  match p with
  | SystemExit code => ret (SystemExit code)
  | Args args =>
      if negb (is_not_None (text_file args))
         && negb (is_not_None (html_file args))
      then parser_error
             "At least one of --text-file or --html-file must be provided"
      else
        require_exists "Text file not found: " (text_file args)
          (require_exists "HTML file not found: " (html_file args)
             (ret (Args args)))
  end.

(** How control leaves [main]: it returns an exit code, or a
    [SystemExit] passes through both [except] clauses. *)
Inductive main_result : Type :=
  | Return (code : Z)
  | Exits (code : Z).

(** The [try] block of [main], lines 173-196. *)
Definition main_try : M (process H) main_result :=
  p <- parse_arguments ;;
  match p with
  | SystemExit code => ret (Exits code)
  | Args args =>
      message <- create_message (sender_name args) (sender_email args)
                   (recipient_name args) (recipient_email args)
                   (text_file args) (html_file args) ;;
      _ <- send_email (smtp_host args) (smtp_port args) (negb (no_ssl args))
             (sender_email args) (recipient_email args) message ;;
      _ <- print "Email sent successfully" ;;
      ret (Return 0)
  end.

(** [main], lines 166-203. *)
Definition main : M (process H) main_result :=
  try_except main_try
    (fun e =>
       if isinstance_OSError_or_SMTPException e
       then _ <- print_stderr ("Error sending email: " +:+ str e) ;;
            ret (Return 1)
       else _ <- print_stderr ("Unexpected error: " +:+ str e) ;;
            ret (Return 1)).

(** [sys.exit(main())], line 207: the exit status of the process.  An
    exception escaping [main] would end the interpreter with
    status 1. *)
Definition exit_status (p : process H) : Z :=
  match main p with
  | (Ok (Return code), _) => code
  | (Ok (Exits code), _) => code
  | (Raise _, _) => 1
  end.


End Script.
End send_email.

(* ===================================================================== *)
(** * Services to run the wrapper against *)
(* ===================================================================== *)

(** ** A test double that replays scripted answers *)

Module Scripted.

Record t : Type := {
  pings : list (result bool);
  indexings : list (result Dict);
  searches : list (result Response);
  scrolls : list (result Response);
  clears : list (result unit)
}.

Definition exhausted : exception :=
  mkException (OtherException "AssertionError") "no scripted answer left"
              None.

Definition pop {A} (l : list (result A)) : result A * list (result A) :=
  match l with
  | r :: l' => (r, l')
  | [] => (Raise exhausted, [])
  end.

Definition ping (s : t) : result bool * t :=
  match pop (pings s) with
  | (r, l) => (r, {| pings := l; indexings := indexings s;
                     searches := searches s; scrolls := scrolls s;
                     clears := clears s |})
  end.

Definition index (s : t) : result Dict * t :=
  match pop (indexings s) with
  | (r, l) => (r, {| pings := pings s; indexings := l;
                     searches := searches s; scrolls := scrolls s;
                     clears := clears s |})
  end.

Definition search (s : t) : result Response * t :=
  match pop (searches s) with
  | (r, l) => (r, {| pings := pings s; indexings := indexings s;
                     searches := l; scrolls := scrolls s;
                     clears := clears s |})
  end.

Definition scroll (s : t) : result Response * t :=
  match pop (scrolls s) with
  | (r, l) => (r, {| pings := pings s; indexings := indexings s;
                     searches := searches s; scrolls := l;
                     clears := clears s |})
  end.

Definition clear_scroll (s : t) : result unit * t :=
  match pop (clears s) with
  | (r, l) => (r, {| pings := pings s; indexings := indexings s;
                     searches := searches s; scrolls := scrolls s;
                     clears := l |})
  end.

#[global] Instance service : Elasticsearch t := {|
  es_ping _ := ping;
  es_index _ _ _ _ := index;
  es_search _ _ _ _ _ := search;
  es_scroll _ _ _ := scroll;
  es_clear_scroll _ _ := clear_scroll;
  es_close _ s := (Ok tt, s)
|}.

Definition silent : t :=
  {| pings := []; indexings := []; searches := []; scrolls := [];
     clears := [] |}.

Definition start (s : t) : world t := {| backend := s; log := [] |}.

End Scripted.

(** ** A service that pages through a stored index

    This is the contract of the scroll interface the wrapper relies on:
    [search] evaluates the query once, answers with the first [size]
    matching hits and a cursor token, and keeps the remaining hits under
    that token; every [scroll] with the token answers with the next
    [size] hits; [clear_scroll] forgets the token.  A page size that is
    not positive is rejected. *)

Module Paged.
Section Service.
(** Whether a stored document matches a request body. *)
Variable matches : Dict -> Dict -> bool.

Record t : Type := {
  indices : gmap string (list Hit);
  cursors : gmap string (list Hit * nat);
  issued : nat
}.

Definition token (n : nat) : string := "scroll-" +:+ pretty n.

Definition not_found (what : string) : exception :=
  mkException (OtherException "NotFoundError") what None.

Definition bad_request (what : string) : exception :=
  mkException (OtherException "BadRequestError") what None.

Definition search (index : string) (body : Dict) (size : Z) (s : t)
  : result Response * t :=
  match indices s !! index with
  | None => (Raise (not_found "index_not_found_exception"), s)
  | Some stored =>
      if (size <=? 0)%Z
      then (Raise (bad_request "size must be positive in a scroll context"),
            s)
      else
        let matching :=
          List.filter (fun h => matches body (_source h)) stored in
        let n := Z.to_nat size in
        let sid := token (issued s) in
        (Ok {| _scroll_id := Some sid; hits_hits := take n matching |},
         {| indices := indices s;
            cursors := <[sid := (drop n matching, n)]> (cursors s);
            issued := S (issued s) |})
  end.

Definition scroll (scroll_id : option string) (s : t)
  : result Response * t :=
  match scroll_id with
  | None => (Raise (bad_request "scroll_id is missing"), s)
  | Some sid =>
      match cursors s !! sid with
      | None => (Raise (not_found "search_context_missing_exception"), s)
      | Some (remaining, n) =>
          (Ok {| _scroll_id := Some sid; hits_hits := take n remaining |},
           {| indices := indices s;
              cursors := <[sid := (drop n remaining, n)]> (cursors s);
              issued := issued s |})
      end
  end.

Definition clear_scroll (sid : string) (s : t) : result unit * t :=
  match cursors s !! sid with
  | None => (Raise (not_found "search_context_missing_exception"), s)
  | Some _ =>
      (Ok tt, {| indices := indices s; cursors := delete sid (cursors s);
                 issued := issued s |})
  end.

Definition index (name : string) (id : option string) (document : Dict)
    (s : t) : result Dict * t :=
  let doc_id := default ("doc-" +:+ pretty (issued s)) id in
  let stored := default [] (indices s !! name) in
  (Ok [("_id", JStr doc_id); ("result", JStr "created")],
   {| indices :=
        <[name := stored ++ [{| _id := doc_id; _source := document |}]]>
          (indices s);
      cursors := cursors s;
      issued := S (issued s) |}).

Definition service : Elasticsearch t := {|
  es_ping _ s := (Ok true, s);
  es_index _ := index;
  es_search _ index body _ size := search index body size;
  es_scroll _ scroll_id _ := scroll scroll_id;
  es_clear_scroll _ := clear_scroll;
  es_close _ s := (Ok tt, s)
|}.

End Service.
End Paged.

(** The cursor table of the paging service while a query that was
    given the token number [n0] runs: the table [C0] the query found,
    with one more entry, under its token, for as long as the generator
    is suspended. *)
Definition tracks_cursor (C0 : gmap string (list Hit * nat))
    (I0 : gmap string (list Hit)) (n0 : nat)
    (g : ElasticsearchClient.generator) (s : Paged.t) : Prop :=
  Paged.indices s = I0
  /\ match g with
     | ElasticsearchClient.Created _ _ _ _ _ =>
         Paged.cursors s = C0 /\ Paged.issued s = n0
     | ElasticsearchClient.Suspended _ scroll_id _ _ =>
         scroll_id = Some (Paged.token n0)
         /\ exists x, Paged.cursors s = <[Paged.token n0 := x]> C0
     | ElasticsearchClient.Finished => Paged.cursors s = C0
     end.

(** ** A host for the e-mail script that replays scripted answers *)

Module ScriptedHost.

Record t : Type := {
  argv : result send_email.parsed;
  files : list (send_email.Path * string);
  smtp : result unit
}.

Definition lookup_file (p : send_email.Path) (s : t) : option string :=
  snd <$> List.find (fun kv => String.eqb (fst kv) p) (files s).

#[global] Instance host : send_email.Host t := {|
  send_email.parse_args s := (argv s, s);
  send_email.path_exists p s := (Ok (is_not_None (lookup_file p s)), s);
  send_email.read_text p s :=
    match lookup_file p s with
    | Some text => (Ok text, s)
    | None => (Raise (mkException OSError "No such file or directory" None),
               s)
    end;
  send_email.formataddr name addr := name +:+ " <" +:+ addr +:+ ">";
  send_email.SMTP_SSL_send_message _ _ _ _ _ s := (smtp s, s);
  send_email.SMTP_send_message _ _ _ _ _ s := (smtp s, s)
|}.

Definition start (s : t) : send_email.process t :=
  {| send_email.host := s; send_email.stdout := [];
     send_email.stderr := [] |}.

End ScriptedHost.

(** ** Concrete runs *)

Module Example.
Import ElasticsearchClient.

Definition client : ElasticsearchClient.t :=
  {| _client := build_connection_params "https://localhost:9200" "secret"
                                        None |}.

Definition doc (n : Z) : Dict := [("n", JInt n)].

Definition hit (id : string) (n : Z) : Hit :=
  {| _id := id; _source := doc n |}.

Definition ack (id : string) : Dict :=
  [("_id", JStr id); ("result", JStr "created")].

Definition timed_out : exception :=
  mkException (OtherException "ConnectionTimeout") "connection timed out"
              None.

(** The service does not answer the ping affirmatively. *)
Definition negative_ping : world Scripted.t :=
  Scripted.start
    {| Scripted.pings := [Ok false]; Scripted.indexings := [];
       Scripted.searches := []; Scripted.scrolls := [];
       Scripted.clears := [] |}.

(** The search request fails. *)
Definition failing_search : world Scripted.t :=
  Scripted.start
    {| Scripted.pings := []; Scripted.indexings := [];
       Scripted.searches := [Raise timed_out]; Scripted.scrolls := [];
       Scripted.clears := [] |}.

(** The first page arrives with a token; the next fetch fails, and
    so does the release of the token. *)
Definition failing_scroll : world Scripted.t :=
  Scripted.start
    {| Scripted.pings := []; Scripted.indexings := [];
       Scripted.searches :=
         [Ok {| _scroll_id := Some "c1";
                hits_hits := [hit "a" 1; hit "b" 2] |}];
       Scripted.scrolls := [Raise timed_out];
       Scripted.clears :=
         [Raise (mkException (OtherException "NotFoundError")
                              "search context missing" None)] |}.

(** Uploads: the [n] first are acknowledged, the next one fails. *)
Definition failing_upload (n : nat) : world Scripted.t :=
  Scripted.start
    {| Scripted.pings := [];
       Scripted.indexings := replicate n (Ok (ack "x")) ++ [Raise timed_out];
       Scripted.searches := []; Scripted.scrolls := [];
       Scripted.clears := [] |}.

(** An index of three documents in the paging service. *)
Definition everything (body document : Dict) : bool := true.

Definition three_documents : world Paged.t :=
  {| backend :=
       {| Paged.indices :=
            {[ "logs" := [hit "a" 1; hit "b" 2; hit "c" 3] ]};
          Paged.cursors := ∅;
          Paged.issued := 0 |};
     log := [] |}.

(** Command lines of the e-mail script. *)
Definition arguments : send_email.Namespace :=
  {| send_email.sender_email := "hub@example.org";
     send_email.recipient_email := "ops@example.org";
     send_email.sender_name := Some "Hub";
     send_email.recipient_name := None;
     send_email.smtp_host := "smtp.example.org";
     send_email.smtp_port := 465;
     send_email.no_ssl := false;
     send_email.text_file := Some "body.txt";
     send_email.html_file := None |}.

Definition mail_host (smtp : result unit) : send_email.process ScriptedHost.t :=
  ScriptedHost.start
    {| ScriptedHost.argv := Ok (send_email.Args arguments);
       ScriptedHost.files := [("body.txt", "All is well.")];
       ScriptedHost.smtp := smtp |}.


(** A page of two hits, then an empty page; the release succeeds. *)
Definition two_pages : world Scripted.t :=
  Scripted.start
    {| Scripted.pings := []; Scripted.indexings := [];
       Scripted.searches :=
         [Ok {| _scroll_id := Some "c1";
                hits_hits := [hit "a" 1; hit "b" 2] |}];
       Scripted.scrolls := [Ok {| _scroll_id := Some "c2"; hits_hits := [] |}];
       Scripted.clears := [Ok tt] |}.

(** Command lines of the e-mail script that are refused, and hosts to
    run the script on. *)
Definition arguments_with (text html : option send_email.Path)
  : send_email.Namespace :=
  {| send_email.sender_email := "hub@example.org";
     send_email.recipient_email := "ops@example.org";
     send_email.sender_name := Some "Hub";
     send_email.recipient_name := None;
     send_email.smtp_host := "smtp.example.org";
     send_email.smtp_port := 465;
     send_email.no_ssl := false;
     send_email.text_file := text;
     send_email.html_file := html |}.

Definition host_with (parsed : send_email.parsed)
    (files : list (send_email.Path * string))
  : send_email.process ScriptedHost.t :=
  ScriptedHost.start
    {| ScriptedHost.argv := Ok parsed;
       ScriptedHost.files := files;
       ScriptedHost.smtp := Ok tt |}.

End Example.

(** ** A statement put to the test

    The caller can tell how many uploads succeeded from what a failing
    [upload_documents] hands back. *)
Definition partial_results_observable : Prop :=
  exists observe : result (list Dict) -> nat,
    forall (documents : list Dict) (w : world Scripted.t) (e : exception),
      fst (ElasticsearchClient.upload_documents Example.client "logs" documents w) = Raise e ->
      observe (fst (ElasticsearchClient.upload_documents Example.client "logs" documents w))
      = ElasticsearchClient.successes (log (snd (ElasticsearchClient.upload_documents Example.client "logs"
                                              documents w))).


(* ===================================================================== *)
(** * Properties *)
(* ===================================================================== *)

Import ElasticsearchClient.

Lemma bind_Ok {W A C} (m : M W A) (k : A -> M W C) (w w' : W) (a : A) :
  m w = (Ok a, w') -> bind m k w = k a w'.
Proof. unfold bind. now intros ->. Qed.

Lemma bind_Raise {W A C} (m : M W A) (k : A -> M W C) (w w' : W)
    (e : exception) :
  m w = (Raise e, w') -> bind m k w = (Raise e, w').
Proof. unfold bind. now intros ->. Qed.

Lemma contains_middle (pre sub post : string) :
  contains sub (pre +:+ sub +:+ post).
Proof. exists pre, post. reflexivity. Qed.

Lemma append_empty_r (s : string) : s +:+ EmptyString = s.
Proof.
  induction s as [|a s IH]; [reflexivity|].
  change (String a (s +:+ EmptyString) = String a s). now rewrite IH.
Qed.

Lemma append_assoc (s t u : string) : s +:+ t +:+ u = (s +:+ t) +:+ u.
Proof.
  induction s as [|a s IH]; [reflexivity|].
  change (String a (s +:+ t +:+ u) = String a ((s +:+ t) +:+ u)).
  now rewrite IH.
Qed.

Lemma contains_end (pre sub : string) : contains sub (pre +:+ sub).
Proof.
  exists pre, EmptyString. now rewrite append_empty_r.
Qed.

Section ClientProperties.
Context {B : Type} `{ES : Elasticsearch B}.

(** ** Construction *)

(** C4.  Whenever the ping raises or answers [False], [__init__]
    raises a [ConnectionError] whose message contains the endpoint;
    when the ping raised [e], the error carries [e] as its cause and
    the text of [e] in its message.  The outcome is [Raise]: no client
    is returned. *)
Theorem init_fails_with_ConnectionError :
  forall (endpoint api_key : string) (ca_cert : option string)
         (w : world B) (answer : result bool),
    fst (es_ping (build_connection_params endpoint api_key ca_cert)
                 (backend w)) = answer ->
    answer <> Ok true ->
    exists (err : exception) (w' : world B),
      __init__ endpoint api_key ca_cert w = (Raise err, w')
      /\ exc_type err = ConnectionError
      /\ contains endpoint (str err)
      /\ (forall e, answer = Raise e ->
            __cause__ err = Some e /\ contains (str e) (str err)).
Proof.
  intros endpoint key ca w answer Hping Hneg.
  unfold __init__, try_except, bind, request, raise, ret. simpl.
  destruct (es_ping (build_connection_params endpoint key ca) (backend w))
    as [r s'] eqn:E.
  simpl in Hping. subst answer.
  destruct r as [[|]|e]; simpl.
  - congruence.
  - eexists _, _. split; [reflexivity|]. simpl.
    split; [reflexivity|].
    split; [apply contains_middle|].
    intros e' H0. discriminate H0.
  - eexists _, _. split; [reflexivity|]. simpl.
    split; [reflexivity|].
    split; [apply contains_middle|].
    intros e' H0. injection H0 as <-.
    split; [reflexivity|].
    rewrite (append_assoc endpoint ": " (str e)).
    rewrite (append_assoc _ (endpoint +:+ ": ") (str e)).
    apply contains_end.
Qed.

(** ** The body of the search request *)

(** C3.  A structured query is used as it is, whatever the query
    string; a query string alone is wrapped into one [query_string]
    clause; with neither, the body is the match-all query.  The body
    is what the first pull submits, and a query without arguments
    behaves, pull for pull, like one given the match-all query. *)
Theorem query_body_resolution :
  forall (self : ElasticsearchClient.t) (index : string) (size : Z),
    (forall (q : Dict) (qs : option string),
        query_body (Some q) qs = [("query", JDict q)])
    /\ (forall qs : string,
        query_body None (Some qs)
        = [("query", JDict [("query_string", JDict [("query", JStr qs)])])])
    /\ query_body None None = [("query", JDict [("match_all", JDict [])])]
    /\ (forall (q : option Dict) (qs : option string) (w : world B),
        exists evs,
          log (snd (gen_next (Created self index q qs size) w))
          = log w
            ++ EvSearch index (query_body q qs) scroll_timeout size
                 (fst (es_search (_client self) index (query_body q qs)
                                 scroll_timeout size (backend w)))
               :: evs)
    /\ (forall (w : world B),
        gen_next (Created self index None None size) w
        = gen_next
            (Created self index (Some [("match_all", JDict [])]) None size)
            w)
    /\ (forall (fuel : nat) (w : world B),
        consume fuel (Created self index None None size) [] w
        = consume fuel
            (Created self index (Some [("match_all", JDict [])]) None size)
            [] w).
Proof.
  intros self index size.
  split; [reflexivity|].
  split; [reflexivity|].
  split; [reflexivity|].
  split.
  - intros q qs w. simpl. unfold request.
    destruct (es_search _ _ _ _ _ _) as [[resp|e] s1]; simpl.
    + unfold for_hit_in_hits.
      destruct (hits_hits resp) as [|h pending]; simpl.
      * unfold leave_try, try_finally, clear_scroll_finally.
        destruct (_scroll_id resp) as [sid|]; simpl.
        -- destruct sid as [|a sid]; simpl.
           ++ exists []. reflexivity.
           ++ unfold try_except, request. simpl.
              destruct (es_clear_scroll _ _ _) as [[u|e] s2]; simpl;
                rewrite <- app_assoc; eexists; reflexivity.
        -- exists []. reflexivity.
      * exists []. reflexivity.
    + exists []. reflexivity.
  - split; [reflexivity|].
    intros [|fuel] w; reflexivity.
Qed.

(** ** The generator *)

Lemma clear_scroll_finally_spec (self : ElasticsearchClient.t)
    (scroll_id : option string) (w : world B) :
  exists s',
    clear_scroll_finally self scroll_id w
    = (Ok tt, {| backend := s';
                 log := log w ++ release_events self scroll_id (backend w) |}).
Proof.
  unfold clear_scroll_finally, release_events, nonempty.
  destruct scroll_id as [sid|]; simpl.
  - destruct sid as [|a sid]; simpl.
    + exists (backend w). unfold ret. rewrite app_nil_r. now destruct w.
    + unfold try_except, request, ret.
      destruct (es_clear_scroll _ _ _) as [[[]|e] s2]; simpl;
        exists s2; reflexivity.
  - exists (backend w). unfold ret. rewrite app_nil_r. now destruct w.
Qed.

Lemma leave_try_spec (self : ElasticsearchClient.t)
    (scroll_id : option string) (r : result item) (w : world B) :
  exists s',
    leave_try self scroll_id r w
    = (r, Finished,
       {| backend := s';
          log := log w ++ release_events self scroll_id (backend w) |}).
Proof.
  unfold leave_try, try_finally.
  destruct (clear_scroll_finally_spec self scroll_id w) as [s' ->].
  exists s'. reflexivity.
Qed.

Lemma release_releases (self : ElasticsearchClient.t)
    (scroll_id : option string) (s : B) :
  fold_left track (release_events self scroll_id s) (nonempty scroll_id)
  = None.
Proof.
  unfold release_events.
  destruct (nonempty scroll_id) as [sid|]; simpl; [|reflexivity].
  now rewrite bool_decide_eq_true_2.
Qed.

Lemma for_hit_in_hits_tracks (self : ElasticsearchClient.t)
    (scroll_id : option string) (page : list Hit) (w : world B) :
  exists new,
    log (snd (for_hit_in_hits self scroll_id page w)) = log w ++ new
    /\ fold_left track new (nonempty scroll_id)
       = holds (snd (fst (for_hit_in_hits self scroll_id page w)))
    /\ (forall e, fst (fst (for_hit_in_hits self scroll_id page w)) <> Raise e)
    /\ Forall (fun ev => forall e, ~ failed_fetch e ev) new.
Proof.
  unfold for_hit_in_hits.
  destruct page as [|hit pending]; simpl.
  - destruct (leave_try_spec self scroll_id (Ok StopIteration) w)
      as [s' ->]. simpl.
    eexists. split; [reflexivity|].
    split; [apply release_releases|].
    split; [discriminate|].
    unfold release_events. destruct (nonempty scroll_id); repeat constructor.
    intros e F; exact F.
  - exists []. rewrite app_nil_r. repeat split; try discriminate.
    constructor.
Qed.

Lemma gen_next_tracks (g : generator) (w : world B) :
  exists new,
    log (snd (gen_next g w)) = log w ++ new
    /\ fold_left track new (holds g) = holds (snd (fst (gen_next g w)))
    /\ (forall e, fst (fst (gen_next g w)) = Raise e ->
          Exists (failed_fetch e) new).
Proof.
  destruct g as [self index q qs size|self scroll_id page pending|]; simpl.
  - unfold request.
    destruct (es_search _ _ _ _ _ _) as [[response|e] s1]; simpl.
    + destruct (for_hit_in_hits_tracks self (_scroll_id response)
                  (hits_hits response)
                  {| backend := s1;
                     log := log w ++ [EvSearch index (query_body q qs)
                                        scroll_timeout size (Ok response)] |})
        as (new & Hlog & Htrack & Hok & _).
      simpl in Hlog. rewrite <- app_assoc in Hlog.
      eexists. split; [exact Hlog|].
      split; [exact Htrack|].
      intros e He. now apply Hok in He.
    + eexists. split; [reflexivity|].
      split; [reflexivity|].
      intros e' [= <-]. constructor. reflexivity.
  - unfold resume.
    destruct pending as [|hit pending].
    + destruct page as [|hit0 page].
      * destruct (leave_try_spec self scroll_id (Ok StopIteration) w)
          as [s' ->]. simpl.
        eexists. split; [reflexivity|].
        split; [apply release_releases|]. discriminate.
      * unfold request.
        destruct (es_scroll _ _ _ _) as [[response|e] s1]; simpl.
        -- destruct (for_hit_in_hits_tracks self (_scroll_id response)
                       (hits_hits response)
                       {| backend := s1;
                          log := log w ++ [EvScroll scroll_id scroll_timeout
                                             (Ok response)] |})
             as (new & Hlog & Htrack & Hok & _).
           simpl in Hlog. rewrite <- app_assoc in Hlog.
           eexists. split; [exact Hlog|].
           split; [exact Htrack|].
           intros e He. now apply Hok in He.
        -- match goal with
           | |- context [leave_try ?a ?b ?c ?d] =>
               destruct (leave_try_spec a b c d) as [s' ->]
           end. simpl. rewrite <- app_assoc.
           eexists. split; [reflexivity|].
           split; [apply release_releases|].
           intros e' [= <-]. constructor. reflexivity.
    + simpl. exists []. rewrite app_nil_r.
      repeat split. discriminate.
  - exists []. rewrite app_nil_r. repeat split. discriminate.
Qed.

Lemma gen_close_tracks (g : generator) (w : world B) :
  exists new,
    log (snd (gen_close g w)) = log w ++ new
    /\ fold_left track new (holds g) = None
    /\ snd (fst (gen_close g w)) = Finished
    /\ fst (fst (gen_close g w)) = Ok tt.
Proof.
  destruct g as [self index q qs size|self scroll_id page pending|]; simpl.
  - exists []. rewrite app_nil_r. repeat split.
  - destruct (clear_scroll_finally_spec self scroll_id w) as [s' ->]. simpl.
    eexists. split; [reflexivity|].
    split; [apply release_releases|]. split; reflexivity.
  - exists []. rewrite app_nil_r. repeat split.
Qed.

Lemma act_tracks (a : action) (g : generator) (w : world B) :
  exists new,
    log (snd (act a g w)) = log w ++ new
    /\ fold_left track new (holds g) = holds (fst (act a g w)).
Proof.
  destruct a; unfold act.
  - destruct (gen_next_tracks g w) as (new & Hlog & Htrack & _).
    destruct (gen_next g w) as [[r g'] w']. simpl in *. eauto.
  - destruct (gen_close_tracks g w) as (new & Hlog & Htrack & Hfin & _).
    destruct (gen_close g w) as [[r g'] w']. simpl in *. subst g'.
    eauto.
Qed.

Lemma drive_tracks (actions : list action) :
  forall (g : generator) (w : world B),
  exists new,
    log (snd (drive actions g w)) = log w ++ new
    /\ fold_left track new (holds g) = holds (fst (drive actions g w)).
Proof.
  induction actions as [|a actions IH]; intros g w; simpl.
  - exists []. rewrite app_nil_r. split; reflexivity.
  - destruct (act_tracks a g w) as (new1 & Hlog1 & Htrack1).
    destruct (act a g w) as [g1 w1]. simpl in *.
    destruct (IH g1 w1) as (new2 & Hlog2 & Htrack2).
    exists (new1 ++ new2). rewrite Hlog2, Hlog1, <- app_assoc.
    split; [reflexivity|].
    now rewrite fold_left_app, Htrack1.
Qed.

(** C2.  Whatever the consumer does with a generator (any sequence of
    pulls and of closing it, closing being what abandoning a generator
    amounts to), once the generator is finished no cursor is held:
    the release of the token of the latest response has been
    requested.  A failing release never shows: closing always returns
    normally, and a pull only ever raises the error of a search or
    scroll request that failed during that pull. *)
Theorem cursor_released_on_every_exit :
  forall (self : ElasticsearchClient.t) (index : string)
         (q : option Dict) (qs : option string) (size : Z)
         (actions : list action) (w : world B)
         (g : generator) (w1 : world B),
    (exists evs,
        log (snd (drive actions (Created self index q qs size) w))
        = log w ++ evs
        /\ (fst (drive actions (Created self index q qs size) w) = Finished
            -> held_cursor evs = None))
    /\ fst (fst (gen_close g w1)) = Ok tt
    /\ (forall e, fst (fst (gen_next g w1)) = Raise e ->
          exists evs,
            log (snd (gen_next g w1)) = log w1 ++ evs
            /\ Exists (failed_fetch e) evs).
Proof.
  intros self index q qs size actions w g w1.
  split; [|split].
  - destruct (drive_tracks actions (Created self index q qs size) w)
      as (evs & Hlog & Htrack).
    exists evs. split; [exact Hlog|].
    intros Hfin. unfold held_cursor.
    simpl in Htrack. rewrite Htrack, Hfin. reflexivity.
  - destruct (gen_close_tracks g w1) as (_ & _ & _ & _ & Hok). exact Hok.
  - intros e He.
    destruct (gen_next_tracks g w1) as (evs & Hlog & _ & Hfail).
    exists evs. split; [exact Hlog | exact (Hfail e He)].
Qed.

(** C5, as the code has it.  The wrapper defines no error class of
    its own for queries: a failing request surfaces as the very
    exception the official client raised.  When the initial search
    fails, the first pull raises it, and only the search request was
    sent.  When the generator is suspended at the end of a page and
    the fetch of the next page fails, the pull raises that exception
    after the [finally] clause has sent its release request for the
    token held, and the generator is finished. *)
Theorem fetch_failure_reaches_the_consumer :
  forall (self : ElasticsearchClient.t) (w : world B) (e : exception)
         (s1 : B),
    (forall (index : string) (q : option Dict) (qs : option string)
            (size : Z),
        es_search (_client self) index (query_body q qs) scroll_timeout size
                  (backend w) = (Raise e, s1) ->
        gen_next (Created self index q qs size) w
        = (Raise e, Finished,
           {| backend := s1;
              log := log w ++ [EvSearch index (query_body q qs)
                                 scroll_timeout size (Raise e)] |}))
    /\ (forall (scroll_id : option string) (hit : Hit) (page : list Hit),
        es_scroll (_client self) scroll_id scroll_timeout (backend w)
        = (Raise e, s1) ->
        exists s2,
          gen_next (Suspended self scroll_id (hit :: page) []) w
          = (Raise e, Finished,
             {| backend := s2;
                log := log w
                       ++ EvScroll scroll_id scroll_timeout (Raise e)
                          :: release_events self scroll_id s1 |})).
Proof.
  intros self w e s1. split.
  - intros index q qs size Hsearch. simpl. unfold request.
    rewrite Hsearch. reflexivity.
  - intros scroll_id hit page Hscroll. simpl. unfold request.
    rewrite Hscroll.
    match goal with
    | |- context [leave_try ?a ?b ?c ?d] =>
        destruct (leave_try_spec a b c d) as [s2 ->]
    end.
    exists s2. simpl. now rewrite <- app_assoc.
Qed.

(** C9.  Calling [query] touches neither the service nor the log: it
    only builds the generator.  The search request is the first
    request of the first pull, and when it fails, it is that pull
    which raises. *)
Theorem query_is_lazy :
  forall (self : ElasticsearchClient.t) (index : string)
         (q : option Dict) (qs : option string) (size : Z) (w : world B),
    query self index q qs size w
    = (Ok (Created self index q qs size), w)
    /\ (exists evs,
          log (snd (gen_next (Created self index q qs size) w))
          = log w
            ++ EvSearch index (query_body q qs) scroll_timeout size
                 (fst (es_search (_client self) index (query_body q qs)
                                 scroll_timeout size (backend w)))
               :: evs)
    /\ (forall e,
          fst (es_search (_client self) index (query_body q qs)
                         scroll_timeout size (backend w)) = Raise e ->
          fst (gen_next (Created self index q qs size) w)
          = (Raise e, Finished)).
Proof.
  intros self index q qs size w.
  split; [reflexivity|]. split.
  - simpl. unfold request.
    destruct (es_search _ _ _ _ _ _) as [[response|e] s1]; simpl.
    + unfold for_hit_in_hits.
      destruct (hits_hits response) as [|hit pending]; simpl.
      * match goal with
        | |- context [leave_try ?a ?b ?c ?d] =>
            destruct (leave_try_spec a b c d) as [s2 ->]
        end.
        simpl. rewrite <- app_assoc. eexists. reflexivity.
      * exists []. reflexivity.
    + exists []. reflexivity.
  - intros e He. simpl. unfold request.
    destruct (es_search _ _ _ _ _ _) as [r s1]. simpl in He. subst r.
    reflexivity.
Qed.

(** ** Uploads *)

Lemma upload_documents_loop_spec (self : ElasticsearchClient.t)
    (index : string) (documents : list Dict) :
  forall (results : list Dict) (w : world B),
  exists (acks : list Dict) (s' : B),
    (length acks = length documents
     /\ upload_documents_loop self index documents results w
        = (Ok (results ++ acks),
           {| backend := s';
              log := log w ++ index_events index documents acks |}))
    \/ (exists d e,
           documents !! length acks = Some d
           /\ upload_documents_loop self index documents results w
              = (Raise e,
                 {| backend := s';
                    log := log w ++ index_events index documents acks
                           ++ [EvIndex index None d (Raise e)] |})).
Proof.
  induction documents as [|d documents IH]; intros results w.
  - exists [], (backend w). left. split; [reflexivity|].
    simpl. unfold ret. rewrite !app_nil_r. now destruct w.
  - simpl. unfold bind, upload_document, request.
    destruct (es_index _ _ _ _ _) as [[a|e] s1].
    + destruct (IH (results ++ [a])
                   {| backend := s1;
                      log := log w ++ [EvIndex index None d (Ok a)] |})
        as (acks & s' & [[Hlen Hrun]|(d' & e & Hd & Hrun)]);
        exists (a :: acks), s'; [left|right].
      * split; [simpl; now rewrite Hlen|].
        rewrite Hrun. simpl. now rewrite <- !app_assoc.
      * exists d', e. split; [exact Hd|].
        rewrite Hrun. simpl. now rewrite <- !app_assoc.
    + exists [], s1. right. exists d, e. split; reflexivity.
Qed.

Lemma successes_index_events (index : string) (documents acks : list Dict) :
  length acks <= length documents ->
  successes (index_events index documents acks) = length acks.
Proof.
  unfold successes, index_events.
  revert acks. induction documents as [|d documents IH];
    intros [|a acks] Hlen; simpl in *; try reflexivity; try lia.
  f_equal. apply IH. lia.
Qed.

(** C6.  The documents are uploaded one request at a time, in input
    order, each through [upload_document].  When all uploads succeed
    the returned list has one entry per document and its [i]-th entry
    is the acknowledgment of the request for the [i]-th document.
    When an upload fails, the requests sent are those for the
    documents before it, each acknowledged, followed by the failing
    one. *)
Theorem upload_documents_preserves_order :
  forall (self : ElasticsearchClient.t) (index : string)
         (documents : list Dict) (w : world B),
    match fst (upload_documents self index documents w) with
    | Ok results =>
        length results = length documents
        /\ log (snd (upload_documents self index documents w))
           = log w ++ index_events index documents results
    | Raise e =>
        exists (acks : list Dict) (d : Dict),
          documents !! length acks = Some d
          /\ log (snd (upload_documents self index documents w))
             = log w ++ index_events index documents acks
               ++ [EvIndex index None d (Raise e)]
    end.
Proof.
  intros self index documents w. unfold upload_documents.
  destruct (upload_documents_loop_spec self index documents [] w)
    as (acks & s' & [[Hlen ->]|(d & e & Hd & ->)]); simpl.
  - split; [exact Hlen | reflexivity].
  - exists acks, d. split; [exact Hd | reflexivity].
Qed.

(** C7, as the code has it.  When an upload fails, no further request
    is sent and the failure is what the call raises; the uploads
    acknowledged before it are not undone, as the only requests of
    the call are those uploads and the failing one.  The accumulated
    list is not handed to the caller: the call yields the exception
    and nothing else. *)
Theorem upload_documents_stops_at_first_failure :
  forall (self : ElasticsearchClient.t) (index : string)
         (documents : list Dict) (w : world B) (e : exception),
    fst (upload_documents self index documents w) = Raise e ->
    exists (acks : list Dict) (d : Dict) (evs : list event),
      documents !! length acks = Some d
      /\ evs = index_events index documents acks
               ++ [EvIndex index None d (Raise e)]
      /\ log (snd (upload_documents self index documents w)) = log w ++ evs
      /\ successes evs = length acks.
Proof.
  intros self index documents w e. unfold upload_documents.
  destruct (upload_documents_loop_spec self index documents [] w)
    as (acks & s' & [[Hlen ->]|(d & e' & Hd & ->)]); simpl.
  - discriminate.
  - intros [= ->]. exists acks, d. eexists.
    split; [exact Hd|]. split; [reflexivity|]. split; [reflexivity|].
    unfold successes. rewrite List.filter_app, length_app. simpl.
    fold (successes (index_events index documents acks)).
    rewrite successes_index_events; [lia|].
    apply lookup_lt_Some in Hd. lia.
Qed.

(** C10.  Every request [upload_documents] sends is an upload without
    an id, while [upload_document] hands the id it is given to the
    service unchanged. *)
Theorem upload_documents_never_sends_an_id :
  forall (self : ElasticsearchClient.t) (index : string)
         (documents : list Dict) (w : world B),
    (exists evs,
        log (snd (upload_documents self index documents w)) = log w ++ evs
        /\ Forall (fun ev => exists d r, ev = EvIndex index None d r) evs)
    /\ (forall (d : Dict) (doc_id : option string),
          upload_document self index d doc_id w
          = (fst (es_index (_client self) index doc_id d (backend w)),
             {| backend :=
                  snd (es_index (_client self) index doc_id d (backend w));
                log := log w
                       ++ [EvIndex index doc_id d
                             (fst (es_index (_client self) index doc_id d
                                            (backend w)))] |})).
Proof.
  intros self index documents w. split.
  - assert (Hev : forall acks,
               Forall (fun ev => exists d r, ev = EvIndex index None d r)
                      (index_events index documents acks)).
    { unfold index_events. induction documents as [|d documents IH];
        intros [|a acks]; simpl; constructor; eauto. }
    unfold upload_documents.
    destruct (upload_documents_loop_spec self index documents [] w)
      as (acks & s' & [[Hlen ->]|(d & e & Hd & ->)]); simpl.
    + eexists. split; [reflexivity | apply Hev].
    + eexists. split; [reflexivity|].
      apply Forall_app. split; [apply Hev|].
      constructor; [eauto | constructor].
  - intros d doc_id. unfold upload_document, request.
    now destruct (es_index _ _ _ _ _).
Qed.

End ClientProperties.

(** ** Pagination against the paging service *)

Section Pagination.
Variable matches : Dict -> Dict -> bool.

#[local] Instance paged : Elasticsearch Paged.t := Paged.service matches.

Lemma take_nil_inv {A} (n : nat) (l : list A) :
  0 < n -> take n l = [] -> l = [].
Proof. destruct n, l; simpl; intros; (lia || congruence). Qed.

(** A suspended generator whose cursor is registered in the service
    yields the rest of its page and then everything the cursor still
    has, and stops. *)
Lemma consume_suspended (self : ElasticsearchClient.t) (sid : string)
    (n : nat) (Hn : 0 < n) :
  forall (fuel : nat) (hit : Hit) (page pending remaining : list Hit)
         (acc : list Dict) (w : world Paged.t),
    Paged.cursors (backend w) !! sid = Some (remaining, n) ->
    length pending + length remaining < fuel ->
    exists w',
      consume fuel (Suspended self (Some sid) (hit :: page) pending) acc w
      = Some (Ok (acc ++ map _source (pending ++ remaining)), Finished, w').
Proof.
  induction fuel as [|fuel IH];
    intros hit page pending remaining acc w Hcur Hfuel; [lia|].
  destruct pending as [|h pending].
  - simpl. unfold request. simpl. unfold Paged.scroll. rewrite Hcur.
    simpl. unfold for_hit_in_hits.
    destruct (take n remaining) as [|h page'] eqn:Hpage.
    + apply take_nil_inv in Hpage; [|exact Hn]. subst remaining.
      match goal with
      | |- context [leave_try ?a ?b ?c ?d] =>
          destruct (leave_try_spec a b c d) as [s2 ->]
      end.
      eexists. simpl. now rewrite app_nil_r.
    + assert (Hsplit : remaining = h :: page' ++ drop n remaining).
      { rewrite <- (take_drop n remaining) at 1. now rewrite Hpage. }
      match goal with
      | |- context [consume fuel ?g ?a ?w1] =>
          destruct (IH h page' page' (drop n remaining) a w1) as [w' Hrun]
      end.
      * simpl. apply lookup_insert_eq.
      * apply (f_equal length) in Hsplit. simpl in Hsplit.
        rewrite length_app in Hsplit. simpl in Hfuel. lia.
      * exists w'. rewrite Hrun. rewrite Hsplit at 2.
        simpl. now rewrite <- app_assoc.
  - simpl in Hfuel.
    destruct (IH hit page pending remaining
                 (acc ++ [_source h]) w Hcur) as [w' Hrun]; [lia|].
    exists w'. simpl. rewrite Hrun. simpl. now rewrite <- app_assoc.
Qed.

Lemma consume_created (self : ElasticsearchClient.t) (index : string)
    (q : option Dict) (qs : option string) (size : Z)
    (w : world Paged.t) (stored : list Hit) (fuel : nat) :
  Paged.indices (backend w) !! index = Some stored ->
  (0 < size)%Z ->
  length (List.filter (fun h => matches (query_body q qs) (_source h))
                      stored) < fuel ->
  exists w',
    consume fuel (Created self index q qs size) [] w
    = Some (Ok (map _source
                  (List.filter
                     (fun h => matches (query_body q qs) (_source h))
                     stored)),
            Finished, w').
Proof.
  intros Hidx Hsize Hfuel.
  set (matching :=
         List.filter (fun h => matches (query_body q qs) (_source h)) stored)
    in *.
  destruct fuel as [|fuel]; [lia|].
  simpl. unfold request. simpl. unfold Paged.search. rewrite Hidx.
  destruct (Z.leb_spec size 0) as [Hle|_]; [lia|].
  simpl. fold matching. unfold for_hit_in_hits.
  assert (Hn : 0 < Z.to_nat size) by lia.
  destruct (take (Z.to_nat size) matching) as [|h page] eqn:Hpage.
  - apply take_nil_inv in Hpage; [|exact Hn]. rewrite Hpage.
    match goal with
    | |- context [leave_try ?a ?b ?c ?d] =>
        destruct (leave_try_spec a b c d) as [s2 ->]
    end.
    eexists. reflexivity.
  - assert (Hsplit : matching
                     = h :: page ++ drop (Z.to_nat size) matching).
    { rewrite <- (take_drop (Z.to_nat size) matching) at 1.
      now rewrite Hpage. }
    match goal with
    | |- context [consume fuel (Suspended ?c (Some ?sid) _ _) ?a ?w1] =>
        destruct (@consume_suspended c sid (Z.to_nat size) Hn fuel h page
                    page (drop (Z.to_nat size) matching) a w1)
          as [w' Hrun]
    end.
    + simpl. apply lookup_insert_eq.
    + apply (f_equal length) in Hsplit. simpl in Hsplit.
      rewrite length_app in Hsplit. lia.
    + exists w'. rewrite Hrun. rewrite Hsplit at 2. reflexivity.
Qed.

(** C1.  Against a service that pages through a stored index, and for
    any positive page sizes, consuming the generator yields the source
    of every matching hit of the index, each once and in the order of
    the index, and then stops: the documents yielded are the same
    whatever the page size. *)
Theorem query_yields_every_match_once :
  forall (self : ElasticsearchClient.t) (index : string)
         (q : option Dict) (qs : option string) (size1 size2 : Z)
         (w : world Paged.t) (stored : list Hit) (fuel : nat),
    Paged.indices (backend w) !! index = Some stored ->
    (0 < size1)%Z ->
    (0 < size2)%Z ->
    length (List.filter (fun h => matches (query_body q qs) (_source h))
                        stored) < fuel ->
    exists (documents : list Dict) (w1 w2 : world Paged.t),
      documents
      = map _source
            (List.filter (fun h => matches (query_body q qs) (_source h))
                         stored)
      /\ consume fuel (Created self index q qs size1) [] w
         = Some (Ok documents, Finished, w1)
      /\ consume fuel (Created self index q qs size2) [] w
         = Some (Ok documents, Finished, w2).
Proof.
  intros self index q qs size1 size2 w stored fuel Hidx H1 H2 Hfuel.
  destruct (consume_created self index q qs w Hidx H1 Hfuel) as [w1 R1].
  destruct (consume_created self index q qs w Hidx H2 Hfuel) as [w2 R2].
  eexists _, w1, w2. split; [reflexivity|]. split; assumption.
Qed.

End Pagination.

(** ** The e-mail script *)

Section ScriptProperties.
Import send_email.
Context {H : Type} `{HO : Host H}.

(** C8.  Once the arguments are parsed: when the message is built and
    sent the exit status is 0; when building the message raises, or
    sending it raises, whatever the exception, the exit status
    is 1. *)
Theorem exit_status_of_main :
  forall (p p1 : process H) (args : Namespace),
    parse_arguments p = (Ok (Args args), p1) ->
    (forall (message : MIMEMultipart) (p2 p3 : process H),
        create_message (sender_name args) (sender_email args)
          (recipient_name args) (recipient_email args)
          (text_file args) (html_file args) p1 = (Ok message, p2) ->
        send_email (smtp_host args) (smtp_port args) (negb (no_ssl args))
          (sender_email args) (recipient_email args) message p2
        = (Ok tt, p3) ->
        exit_status p = 0%Z)
    /\ (forall (e : exception) (p2 : process H),
        create_message (sender_name args) (sender_email args)
          (recipient_name args) (recipient_email args)
          (text_file args) (html_file args) p1 = (Raise e, p2) ->
        exit_status p = 1%Z)
    /\ (forall (message : MIMEMultipart) (e : exception)
               (p2 p3 : process H),
        create_message (sender_name args) (sender_email args)
          (recipient_name args) (recipient_email args)
          (text_file args) (html_file args) p1 = (Ok message, p2) ->
        send_email (smtp_host args) (smtp_port args) (negb (no_ssl args))
          (sender_email args) (recipient_email args) message p2
        = (Raise e, p3) ->
        exit_status p = 1%Z).
Proof.
  intros p p1 args Hparse.
  unfold exit_status, main, try_except, main_try.
  erewrite bind_Ok by exact Hparse.
  split; [|split].
  - intros message p2 p3 Hcreate Hsend.
    erewrite bind_Ok by exact Hcreate.
    erewrite bind_Ok by exact Hsend. reflexivity.
  - intros e p2 Hcreate.
    erewrite bind_Raise by exact Hcreate.
    destruct (isinstance_OSError_or_SMTPException e); reflexivity.
  - intros message e p2 p3 Hcreate Hsend.
    erewrite bind_Ok by exact Hcreate.
    erewrite bind_Raise by exact Hsend.
    destruct (isinstance_OSError_or_SMTPException e); reflexivity.
Qed.

End ScriptProperties.

(* ===================================================================== *)
(** * The properties on concrete runs *)
(* ===================================================================== *)

Lemma init_fails_with_ConnectionError_witness :
  exists (err : exception) (w' : world Scripted.t),
    __init__ "https://localhost:9200" "secret" None Example.negative_ping
    = (Raise err, w')
    /\ exc_type err = ConnectionError
    /\ contains "https://localhost:9200" (str err)
    /\ (forall e, Ok false = Raise e ->
          __cause__ err = Some e /\ contains (str e) (str err)).
Proof.
  apply (@init_fails_with_ConnectionError Scripted.t Scripted.service
           "https://localhost:9200" "secret" None Example.negative_ping
           (Ok false)).
  - reflexivity.
  - discriminate.
Defined.

Lemma query_yields_every_match_once_witness :
  exists (documents : list Dict) (w1 w2 : world Paged.t),
    documents = [Example.doc 1; Example.doc 2; Example.doc 3]
    /\ @consume _ (Paged.service Example.everything) 10
         (Created Example.client "logs" None None 1) []
         Example.three_documents
       = Some (Ok documents, Finished, w1)
    /\ @consume _ (Paged.service Example.everything) 10
         (Created Example.client "logs" None None 1000) []
         Example.three_documents
       = Some (Ok documents, Finished, w2).
Proof.
  apply (@query_yields_every_match_once Example.everything Example.client
           "logs" None None 1 1000 Example.three_documents
           [Example.hit "a" 1; Example.hit "b" 2; Example.hit "c" 3] 10).
  - vm_compute. reflexivity.
  - lia.
  - lia.
  - simpl. lia.
Defined.

Lemma cursor_released_on_every_exit_witness :
  fst (drive [Next; Close] (Created Example.client "logs" None None 100)
             Example.failing_scroll) = Finished
  /\ held_cursor
       (log (snd (drive [Next; Close]
                        (Created Example.client "logs" None None 100)
                        Example.failing_scroll))) = None.
Proof.
  split; [reflexivity|].
  destruct (@cursor_released_on_every_exit _ Scripted.service
              Example.client "logs" None None 100 [Next; Close]
              Example.failing_scroll Finished Example.failing_scroll)
    as [(evs & Hlog & Hfin) _].
  rewrite Hlog. apply Hfin. reflexivity.
Defined.

(** C5, as stated, fails: when the search request times out, what the
    first pull raises is the timeout of the official client, and no
    [QueryError]. *)
Lemma search_failure_is_not_a_QueryError :
  exists e : exception,
    fst (gen_next (Created Example.client "logs" None None 100)
                  Example.failing_search) = (Raise e, Finished)
    /\ exc_type e <> OtherException "QueryError".
Proof.
  exists Example.timed_out. split; [reflexivity | discriminate].
Qed.

Lemma fetch_failure_reaches_the_consumer_witness :
  gen_next (Created Example.client "logs" None None 100)
           Example.failing_search
  = (Raise Example.timed_out, Finished,
     {| backend := Scripted.silent;
        log := [EvSearch "logs" (query_body None None) scroll_timeout 100
                  (Raise Example.timed_out)] |})
  /\ exists s2,
      gen_next (Suspended Example.client (Some "c1") [Example.hit "b" 2] [])
               Example.failing_scroll
      = (Raise Example.timed_out, Finished,
         {| backend := s2;
            log := [EvScroll (Some "c1") scroll_timeout
                      (Raise Example.timed_out);
                    EvClearScroll "c1"
                      (Raise (mkException (OtherException "NotFoundError")
                                           "search context missing" None))] |}).
Proof.
  split.
  - apply (proj1 (@fetch_failure_reaches_the_consumer _ Scripted.service
                    Example.client Example.failing_search Example.timed_out
                    Scripted.silent)).
    reflexivity.
  - apply (proj2 (@fetch_failure_reaches_the_consumer _ Scripted.service
                    Example.client Example.failing_scroll Example.timed_out
                    (snd (Scripted.scroll (backend Example.failing_scroll))))
             (Some "c1") (Example.hit "b" 2) []).
    reflexivity.
Defined.

Lemma query_is_lazy_witness :
  query Example.client "logs" None None 100 Example.failing_search
  = (Ok (Created Example.client "logs" None None 100), Example.failing_search)
  /\ fst (gen_next (Created Example.client "logs" None None 100)
                   Example.failing_search)
     = (Raise Example.timed_out, Finished).
Proof.
  destruct (@query_is_lazy _ Scripted.service Example.client "logs" None None
              100 Example.failing_search) as (Hcall & _ & Hfail).
  split; [exact Hcall|].
  apply Hfail. reflexivity.
Defined.

(** C7, as stated, fails: what a failing call hands back does not tell
    how many uploads succeeded.  A batch that fails at its first
    document and one that fails at its second hand back the same
    thing. *)
Lemma partial_results_are_not_observable : ~ partial_results_observable.
Proof.
  intros [observe Hobs].
  pose proof (Hobs [Example.doc 1; Example.doc 2]
                (Example.failing_upload 0) Example.timed_out eq_refl) as H0.
  pose proof (Hobs [Example.doc 1; Example.doc 2]
                (Example.failing_upload 1) Example.timed_out eq_refl) as H1.
  vm_compute in H0, H1. congruence.
Qed.

Lemma upload_documents_stops_at_first_failure_witness :
  fst (upload_documents Example.client "logs"
         [Example.doc 1; Example.doc 2; Example.doc 3]
         (Example.failing_upload 1)) = Raise Example.timed_out
  /\ exists (acks : list Dict) (d : Dict) (evs : list event),
      [Example.doc 1; Example.doc 2; Example.doc 3] !! length acks = Some d
      /\ evs = index_events "logs"
                 [Example.doc 1; Example.doc 2; Example.doc 3] acks
               ++ [EvIndex "logs" None d (Raise Example.timed_out)]
      /\ log (snd (upload_documents Example.client "logs"
                     [Example.doc 1; Example.doc 2; Example.doc 3]
                     (Example.failing_upload 1)))
         = log (Example.failing_upload 1) ++ evs
      /\ successes evs = length acks.
Proof.
  split; [reflexivity|].
  apply (@upload_documents_stops_at_first_failure _ Scripted.service
           Example.client "logs"
           [Example.doc 1; Example.doc 2; Example.doc 3]
           (Example.failing_upload 1) Example.timed_out).
  reflexivity.
Defined.

Lemma exit_status_of_main_witness :
  send_email.exit_status (Example.mail_host (Ok tt)) = 0%Z
  /\ send_email.exit_status (Example.mail_host (Raise Example.timed_out))
     = 1%Z.
Proof.
  split.
  - destruct (@exit_status_of_main _ ScriptedHost.host
                (Example.mail_host (Ok tt)) (Example.mail_host (Ok tt))
                Example.arguments eq_refl) as (Hsent & _ & _).
    eapply Hsent; reflexivity.
  - destruct (@exit_status_of_main _ ScriptedHost.host
                (Example.mail_host (Raise Example.timed_out))
                (Example.mail_host (Raise Example.timed_out))
                Example.arguments eq_refl) as (_ & _ & Hfailed).
    eapply Hfailed; reflexivity.
Defined.

(** A batch of two documents against the paging service: both are
    sent without an id, in input order, and the service names them. *)
Example upload_two_documents :
  exists s',
    @upload_documents _ (Paged.service Example.everything) Example.client
      "logs" [Example.doc 4; Example.doc 5] Example.three_documents
    = (Ok [Example.ack "doc-0"; Example.ack "doc-1"],
       {| backend := s';
          log := [EvIndex "logs" None (Example.doc 4)
                    (Ok (Example.ack "doc-0"));
                  EvIndex "logs" None (Example.doc 5)
                    (Ok (Example.ack "doc-1"))] |}).
Proof. eexists. vm_compute. reflexivity. Qed.

(** A structured query wins over a query string. *)
Example structured_query_wins :
  query_body (Some [("term", JDict [("status", JInt 200)])])
             (Some "status:500")
  = [("query", JDict [("term", JDict [("status", JInt 200)])])].
Proof. reflexivity. Qed.


(* ===================================================================== *)
(** * Further properties of the client *)
(* ===================================================================== *)

Section MoreClientProperties.
Context {B : Type} `{ES : Elasticsearch B}.

(** ** Construction *)


(** ** Uploads *)

Lemma upload_documents_loop_app (self : ElasticsearchClient.t)
    (index : string) (d1 d2 : list Dict) :
  forall (results : list Dict) (w : world B),
    upload_documents_loop self index (d1 ++ d2) results w
    = bind (upload_documents_loop self index d1 results)
           (fun results' => upload_documents_loop self index d2 results') w.
Proof.
  induction d1 as [|d d1 IH]; intros results w; simpl.
  - reflexivity.
  - unfold bind.
    destruct (upload_document self index d None w) as [[a|e] w1];
      [|reflexivity].
    rewrite IH. reflexivity.
Qed.

Lemma upload_documents_loop_acc (self : ElasticsearchClient.t)
    (index : string) (documents : list Dict) :
  forall (results : list Dict) (w : world B),
    upload_documents_loop self index documents results w
    = bind (upload_documents_loop self index documents [])
           (fun acks => ret (results ++ acks)) w.
Proof.
  induction documents as [|d documents IH]; intros results w; simpl.
  - unfold bind, ret. now rewrite app_nil_r.
  - unfold bind.
    destruct (upload_document self index d None w) as [[a|e] w1];
      [|reflexivity].
    rewrite (IH (results ++ [a])), (IH ([] ++ [a])).
    unfold bind, ret.
    destruct (upload_documents_loop self index documents [] w1)
      as [[acks|e] w2]; [|reflexivity].
    simpl. now rewrite <- app_assoc.
Qed.

(** X2.  Uploading a batch in two parts, the second only when the first
    succeeded, is the same as uploading it at once: the same requests,
    the same failure if any, and the acknowledgments one after the
    other. *)
Theorem upload_documents_app :
  forall (self : ElasticsearchClient.t) (index : string)
         (d1 d2 : list Dict) (w : world B),
    upload_documents self index (d1 ++ d2) w
    = (r1 <- upload_documents self index d1 ;;
       r2 <- upload_documents self index d2 ;;
       ret (r1 ++ r2)) w.
Proof.
  intros self index d1 d2 w. unfold upload_documents.
  rewrite upload_documents_loop_app. unfold bind.
  destruct (upload_documents_loop self index d1 [] w) as [[r1|e] w1];
    [|reflexivity].
  rewrite upload_documents_loop_acc. reflexivity.
Qed.

(** X3.  [upload_documents] sends at most one request per document: one per
    document when it succeeds; when it fails, at least the failing one,
    which is the last; and none for an empty batch, which succeeds with
    the empty list. *)
Theorem upload_documents_request_count :
  forall (self : ElasticsearchClient.t) (index : string)
         (documents : list Dict) (w : world B),
  exists evs,
    log (snd (upload_documents self index documents w)) = log w ++ evs
    /\ length evs <= length documents
    /\ successes evs
       = match fst (upload_documents self index documents w) with
         | Ok results => length results
         | Raise _ => length evs - 1
         end
    /\ match fst (upload_documents self index documents w) with
       | Ok results => length evs = length documents
       | Raise e =>
           exists evs' index' id d, evs = evs' ++ [EvIndex index' id d (Raise e)]
       end
    /\ (documents = [] -> upload_documents self index documents w = (Ok [], w)).
Proof.
  intros self index documents w. unfold upload_documents.
  assert (Hlen : forall acks : list Dict,
             length acks <= length documents ->
             length (index_events index documents acks) = length acks).
  { intros acks Hle. unfold index_events.
    rewrite length_zip_with. lia. }
  assert (Hempty : documents = [] ->
                   upload_documents_loop self index documents [] w
                   = (Ok [], w)).
  { intros ->. reflexivity. }
  destruct (upload_documents_loop_spec self index documents [] w)
    as (acks & s' & [[Hl Hrun]|(d & e & Hd & Hrun)]); rewrite Hrun; simpl.
  - exists (index_events index documents acks).
    split; [reflexivity|].
    rewrite Hlen by lia.
    split; [lia|].
    split; [apply successes_index_events; lia|].
    split; [lia|].
    intros Hnil. rewrite <- (Hempty Hnil), Hrun. reflexivity.
  - apply lookup_lt_Some in Hd.
    exists (index_events index documents acks
            ++ [EvIndex index None d (Raise e)]).
    split; [reflexivity|].
    rewrite length_app, Hlen by lia. simpl.
    split; [lia|].
    split.
    + unfold successes. rewrite List.filter_app, length_app. simpl.
      fold (successes (index_events index documents acks)).
      rewrite successes_index_events by lia. lia.
    + split; [eauto|].
      intros ->. simpl in Hd. lia.
Qed.

(** ** The context manager *)

(** X4.  A [with] block over the client closes it exactly once, after the
    body, on both ways out of the body.  The outcome of the block is
    that of the body, unless closing fails, in which case the failure of
    closing is raised. *)
Theorem with_statement_closes :
  forall (A : Type) (self : ElasticsearchClient.t)
         (body : ElasticsearchClient.t -> M (world B) A) (w : world B),
    let w1 := snd (body self w) in
    let closed := es_close (_client self) (backend w1) in
    with_statement self body w
    = (match fst closed with
       | Ok _ => fst (body self w)
       | Raise e => Raise e
       end,
       {| backend := snd closed; log := log w1 ++ [EvClose (fst closed)] |}).
Proof.
  intros A self body w. unfold with_statement, __enter__, __exit__, close.
  unfold bind at 1. unfold ret at 1.
  destruct (body self w) as [[a|e] w1]; simpl;
    unfold bind, request, ret, raise;
    destruct (es_close (_client self) (backend w1)) as [[[]|e'] s2];
    reflexivity.
Qed.

End MoreClientProperties.

(* ===================================================================== *)
(** * Further properties of the generator *)
(* ===================================================================== *)

Section GeneratorProperties.
Context {B : Type} `{ES : Elasticsearch B}.

Lemma length_release_events (self : ElasticsearchClient.t)
    (scroll_id : option string) (s : B) :
  length (release_events self scroll_id s) <= 1.
Proof. unfold release_events. destruct (nonempty scroll_id); simpl; lia. Qed.

Lemma received_release_events (self : ElasticsearchClient.t)
    (scroll_id : option string) (s : B) :
  received (release_events self scroll_id s) = [].
Proof. unfold release_events. now destruct (nonempty scroll_id). Qed.

(** What one pull does, case by case. *)
Lemma gen_next_cases (g : generator) (w : world B) :
  exists evs,
    log (snd (gen_next g w)) = log w ++ evs
    /\ length evs <= 2
    /\ match fst (fst (gen_next g w)) with
       | Ok (Yield d) =>
           length evs <= 1
           /\ Forall (fun ev => is_fetch ev = true) evs
           /\ (exists hit,
                 d = _source hit
                 /\ pending_of g ++ received evs
                    = hit :: pending_of (snd (fst (gen_next g w))))
           /\ snd (fst (gen_next g w)) <> Finished
       | Ok StopIteration =>
           pending_of g ++ received evs = []
           /\ snd (fst (gen_next g w)) = Finished
       | Raise _ => snd (fst (gen_next g w)) = Finished
       end
    /\ (pending_of g <> [] -> evs = []).
Proof.
  destruct g as [self index q qs size|self scroll_id page pending|]; simpl.
  - unfold request.
    destruct (es_search _ _ _ _ _ _) as [[response|e] s1]; simpl.
    + unfold for_hit_in_hits.
      destruct (hits_hits response) as [|hit rest] eqn:Hhits.
      * match goal with
        | |- context [leave_try ?a ?b ?c ?d] =>
            destruct (leave_try_spec a b c d) as [s2 ->]
        end.
        simpl. rewrite <- app_assoc. eexists. split; [reflexivity|].
        pose proof (length_release_events self (_scroll_id response) s1).
        simpl. split; [lia|]. split; [|congruence].
        unfold received. simpl. rewrite Hhits. simpl.
        fold (received (release_events self (_scroll_id response) s1)).
        now rewrite received_release_events.
      * simpl. eexists. split; [reflexivity|].
        simpl. split; [lia|]. split; [|congruence].
        split; [lia|]. split; [repeat constructor|].
        split; [|discriminate].
        exists hit. split; [reflexivity|].
        unfold received. simpl. rewrite Hhits. now rewrite app_nil_r.
    + exists [EvSearch index (query_body q qs) scroll_timeout size (Raise e)].
      split; [reflexivity|]. simpl. split; [lia|]. split; congruence.
  - unfold resume.
    destruct pending as [|hit pending].
    + destruct page as [|hit0 page].
      * destruct (leave_try_spec self scroll_id (Ok StopIteration) w)
          as [s' ->]. simpl.
        eexists. split; [reflexivity|].
        pose proof (length_release_events self scroll_id (backend w)).
        split; [lia|]. split; [|congruence].
        split; [apply received_release_events | reflexivity].
      * unfold request.
        destruct (es_scroll _ _ _ _) as [[response|e] s1]; simpl.
        -- unfold for_hit_in_hits.
           destruct (hits_hits response) as [|hit rest] eqn:Hhits.
           ++ match goal with
              | |- context [leave_try ?a ?b ?c ?d] =>
                  destruct (leave_try_spec a b c d) as [s2 ->]
              end.
              simpl. rewrite <- app_assoc. eexists. split; [reflexivity|].
              pose proof (length_release_events self (_scroll_id response) s1).
              simpl. split; [lia|]. split; [|congruence].
              unfold received. simpl. rewrite Hhits. simpl.
              fold (received (release_events self (_scroll_id response) s1)).
              now rewrite received_release_events.
           ++ simpl. eexists. split; [reflexivity|].
              simpl. split; [lia|]. split; [|congruence].
              split; [lia|]. split; [repeat constructor|].
              split; [|discriminate].
              exists hit. split; [reflexivity|].
              unfold received. simpl. rewrite Hhits. now rewrite app_nil_r.
        -- match goal with
           | |- context [leave_try ?a ?b ?c ?d] =>
               destruct (leave_try_spec a b c d) as [s2 ->]
           end.
           simpl. rewrite <- app_assoc. eexists. split; [reflexivity|].
           pose proof (length_release_events self scroll_id s1).
           simpl. split; [lia|]. split; congruence.
    + simpl. exists []. rewrite app_nil_r. split; [reflexivity|].
      simpl. split; [lia|]. split; [|reflexivity].
      split; [lia|]. split; [constructor|].
      split; [|discriminate].
      exists hit. split; [reflexivity|]. now rewrite app_nil_r.
  - exists []. rewrite app_nil_r. split; [reflexivity|].
    simpl. split; [lia|]. split; [|congruence]. split; reflexivity.
Qed.

(** X5.  One pull sends at most two requests.  A pull that yields a
    document sends at most one, a search or a scroll and never a
    [clear_scroll], and leaves the generator alive; a pull served from
    the current page sends none. *)
Theorem pull_sends_at_most_one_fetch :
  forall (g : generator) (w : world B),
  exists evs,
    log (snd (gen_next g w)) = log w ++ evs
    /\ length evs <= 2
    /\ (forall d, fst (fst (gen_next g w)) = Ok (Yield d) ->
          length evs <= 1
          /\ Forall (fun ev => is_fetch ev = true) evs
          /\ snd (fst (gen_next g w)) <> Finished)
    /\ (pending_of g <> [] -> evs = []).
Proof.
  intros g w.
  destruct (gen_next_cases g w) as (evs & Hlog & Hlen & Hcase & Hpend).
  exists evs. split; [exact Hlog|]. split; [exact Hlen|].
  split; [|exact Hpend].
  intros d Hd. rewrite Hd in Hcase.
  destruct Hcase as (H1 & H2 & _ & H3). auto.
Qed.

Lemma consume_received (fuel : nat) :
  forall (g : generator) (acc : list Dict) (w : world B)
         (documents : list Dict) (g' : generator) (w' : world B),
    consume fuel g acc w = Some (Ok documents, g', w') ->
    exists evs,
      log w' = log w ++ evs
      /\ documents = acc ++ map _source (pending_of g ++ received evs)
      /\ g' = Finished.
Proof.
  induction fuel as [|fuel IH]; intros g acc w documents g' w' Hrun;
    [discriminate|].
  simpl in Hrun.
  destruct (gen_next_cases g w) as (evs & Hlog & _ & Hcase & _).
  destruct (gen_next g w) as [[[[d|]|e] g1] w1]; simpl in *.
  - destruct Hcase as (_ & _ & (hit & -> & Hsplit) & _).
    destruct (IH _ _ _ _ _ _ Hrun) as (evs' & Hlog' & -> & ->).
    exists (evs ++ evs'). rewrite Hlog', Hlog, <- app_assoc.
    split; [reflexivity|]. split; [|reflexivity].
    unfold received in *. rewrite flat_map_app, app_assoc, Hsplit.
    simpl. now rewrite <- app_assoc.
  - injection Hrun as <- <- <-. destruct Hcase as [Hnil ->].
    exists evs. split; [exact Hlog|]. rewrite Hnil. simpl.
    now rewrite app_nil_r.
  - discriminate.
Qed.

(** X6.  Whatever the service, when [list(query(...))] returns, the
    documents are the sources of the hits of all the pages the service
    sent, in the order it sent them: nothing is dropped, repeated or
    reordered by the wrapper, and the generator is finished. *)
Theorem consume_yields_what_was_received :
  forall (fuel : nat) (self : ElasticsearchClient.t) (index : string)
         (q : option Dict) (qs : option string) (size : Z) (w : world B)
         (documents : list Dict) (g' : generator) (w' : world B),
    consume fuel (Created self index q qs size) [] w
    = Some (Ok documents, g', w') ->
    exists evs,
      log w' = log w ++ evs
      /\ documents = map _source (received evs)
      /\ g' = Finished.
Proof.
  intros fuel self index q qs size w documents g' w' Hrun.
  destruct (consume_received _ _ _ _ Hrun) as (evs & Hlog & Hdocs & Hfin).
  exists evs. auto.
Qed.

(** ** The order of the requests *)

Lemma protocol_app (evs1 evs2 : list event) (ph ph1 : phase) :
  protocol evs1 ph = Some ph1 ->
  protocol (evs1 ++ evs2) ph = protocol evs2 ph1.
Proof.
  unfold protocol. intros H. now rewrite fold_left_app, H.
Qed.

Lemma protocol_release (self : ElasticsearchClient.t)
    (scroll_id : option string) (s : B) (ph : phase) :
  ph = Streaming scroll_id \/ ph = Ending scroll_id ->
  exists ph', protocol (release_events self scroll_id s) ph = Some ph'.
Proof.
  unfold release_events, protocol.
  destruct (nonempty scroll_id) as [sid|] eqn:Hne; simpl; [|eauto].
  intros [-> | ->]; simpl; rewrite Hne, bool_decide_eq_true_2 by reflexivity;
    eauto.
Qed.

Lemma protocol_after_fetch (self : ElasticsearchClient.t)
    (held : option string) (response : Response) (w : world B) :
  exists evs ph',
    log (snd (for_hit_in_hits self (_scroll_id response)
                              (hits_hits response) w)) = log w ++ evs
    /\ protocol evs (after_fetch held (Ok response)) = Some ph'
    /\ in_phase (snd (fst (for_hit_in_hits self (_scroll_id response)
                                           (hits_hits response) w))) ph'.
Proof.
  unfold for_hit_in_hits, after_fetch.
  destruct (hits_hits response) as [|hit rest].
  - destruct (leave_try_spec self (_scroll_id response) (Ok StopIteration) w)
      as [s' ->]. simpl.
    destruct (@protocol_release self (_scroll_id response) (backend w) (Ending (_scroll_id response))) as [ph' Hph]; [auto|].
    eexists _, ph'. split; [reflexivity|]. split; [exact Hph | exact I].
  - simpl. exists [], (Streaming (_scroll_id response)).
    rewrite app_nil_r. repeat split.
Qed.

Lemma act_protocol (a : action) (g : generator) (w : world B) (ph : phase) :
  in_phase g ph ->
  exists evs ph',
    log (snd (act a g w)) = log w ++ evs
    /\ protocol evs ph = Some ph'
    /\ in_phase (fst (act a g w)) ph'.
Proof.
  intros Hph.
  assert (Hskip : exists evs ph',
             log w = log w ++ evs /\ protocol evs ph = Some ph'
             /\ in_phase Finished ph').
  { exists [], ph. rewrite app_nil_r. repeat split. }
  destruct a, g as [self index q qs size|self scroll_id page pending|];
    simpl in *; try exact Hskip; subst ph.
  - (* first pull *)
    unfold request.
    destruct (es_search _ _ _ _ _ _) as [[response|e] s1]; simpl.
    + match goal with
      | |- context [for_hit_in_hits _ _ _ ?w1] =>
          destruct (protocol_after_fetch self None response w1)
            as (evs & ph' & Hlog & Hproto & Hin)
      end.
      destruct (for_hit_in_hits _ _ _ _) as [[r g1] w2]. simpl in *.
      exists (EvSearch index (query_body q qs) scroll_timeout size
                       (Ok response) :: evs), ph'.
      rewrite Hlog, <- app_assoc. split; [reflexivity|].
      split; [exact Hproto | exact Hin].
    + eexists [_], _. split; [reflexivity|]. split; [reflexivity | exact I].
  - (* later pull *)
    unfold resume.
    destruct pending as [|hit pending].
    + destruct page as [|hit0 page].
      * destruct (leave_try_spec self scroll_id (Ok StopIteration) w)
          as [s' ->]. simpl.
        destruct (@protocol_release self scroll_id (backend w) (Streaming scroll_id)) as [ph' Hph']; [auto|].
        eexists _, ph'. split; [reflexivity|]. split; [exact Hph' | exact I].
      * unfold request.
        destruct (es_scroll _ _ _ _) as [[response|e] s1]; simpl.
        -- match goal with
           | |- context [for_hit_in_hits _ _ _ ?w1] =>
               destruct (protocol_after_fetch self scroll_id response w1)
                 as (evs & ph' & Hlog & Hproto & Hin)
           end.
           destruct (for_hit_in_hits _ _ _ _) as [[r g1] w2]. simpl in *.
           exists (EvScroll scroll_id scroll_timeout (Ok response) :: evs),
                  ph'.
           rewrite Hlog, <- app_assoc. split; [reflexivity|].
           split; [|exact Hin].
           unfold protocol in *. simpl.
           rewrite bool_decide_eq_true_2 by reflexivity. exact Hproto.
        -- match goal with
           | |- context [leave_try ?a ?b ?c ?d] =>
               destruct (leave_try_spec a b c d) as [s2 ->]
           end.
           simpl. rewrite <- app_assoc.
           destruct (@protocol_release self scroll_id s1 (Ending scroll_id)) as [ph' Hph']; [auto|].
           eexists (_ :: _), ph'. split; [reflexivity|].
           split; [|exact I].
           unfold protocol in *. simpl.
           rewrite bool_decide_eq_true_2 by reflexivity. exact Hph'.
    + simpl. exists [], (Streaming scroll_id). rewrite app_nil_r.
      repeat split.
  - (* closing a suspended generator *)
    destruct (clear_scroll_finally_spec self scroll_id w) as [s' ->]. simpl.
    destruct (@protocol_release self scroll_id (backend w) (Streaming scroll_id)) as [ph' Hph']; [auto|].
    eexists _, ph'. split; [reflexivity|]. split; [exact Hph' | exact I].
Qed.

Lemma drive_protocol (actions : list action) :
  forall (g : generator) (w : world B) (ph : phase),
    in_phase g ph ->
    exists evs ph',
      log (snd (drive actions g w)) = log w ++ evs
      /\ protocol evs ph = Some ph'.
Proof.
  induction actions as [|a actions IH]; intros g w ph Hph; simpl.
  - exists [], ph. rewrite app_nil_r. split; reflexivity.
  - destruct (@act_protocol a g w ph Hph) as (evs1 & ph1 & Hlog1 & Hp1 & Hin1).
    destruct (act a g w) as [g1 w1]. simpl in *.
    destruct (IH g1 w1 ph1 Hin1) as (evs2 & ph2 & Hlog2 & Hp2).
    exists (evs1 ++ evs2), ph2. rewrite Hlog2, Hlog1, <- app_assoc.
    split; [reflexivity|].
    now rewrite (@protocol_app evs1 evs2 ph ph1 Hp1).
Qed.

(** X7.  Whatever the consumer does and whatever the service answers, the
    requests of a query follow the order the scroll interface asks for:
    first one search; then scrolls, each carrying the token of the
    response just before it; none after an empty page or a failed
    request; at most one [clear_scroll], for a non-empty token that is
    the one held, and nothing after it.  Every search and scroll asks
    for the same retention window. *)
Theorem query_follows_the_scroll_protocol :
  forall (self : ElasticsearchClient.t) (index : string)
         (q : option Dict) (qs : option string) (size : Z)
         (actions : list action) (w : world B),
  exists evs ph,
    log (snd (drive actions (Created self index q qs size) w)) = log w ++ evs
    /\ protocol evs Idle = Some ph.
Proof.
  intros self index q qs size actions w.
  apply drive_protocol. reflexivity.
Qed.

End GeneratorProperties.

(* ===================================================================== *)
(** * The cursor table of the paging service *)
(* ===================================================================== *)

Section PagedCursors.
Variable matches : Dict -> Dict -> bool.

#[local] Instance paged_service : Elasticsearch Paged.t :=
  Paged.service matches.

Variable C0 : gmap string (list Hit * nat).
Variable I0 : gmap string (list Hit).
Variable n0 : nat.
Hypothesis fresh : C0 !! Paged.token n0 = None.

Lemma paged_release (self : ElasticsearchClient.t) (x : list Hit * nat)
    (w : world Paged.t) :
  Paged.cursors (backend w) = <[Paged.token n0 := x]> C0 ->
  exists w',
    clear_scroll_finally self (Some (Paged.token n0)) w = (Ok tt, w')
    /\ Paged.cursors (backend w') = C0
    /\ Paged.indices (backend w') = Paged.indices (backend w).
Proof.
  intros Hcur. unfold clear_scroll_finally.
  change (truthy (Some (Paged.token n0))) with true. cbv iota.
  unfold try_except, request. simpl. unfold Paged.clear_scroll.
  rewrite Hcur, lookup_insert_eq. simpl.
  eexists. split; [reflexivity|]. simpl.
  split; [now apply delete_insert_id | reflexivity].
Qed.

Lemma paged_leave_try (self : ElasticsearchClient.t) (x : list Hit * nat)
    (r : result item) (w : world Paged.t) :
  Paged.indices (backend w) = I0 ->
  Paged.cursors (backend w) = <[Paged.token n0 := x]> C0 ->
  tracks_cursor C0 I0 n0
    (snd (fst (leave_try self (Some (Paged.token n0)) r w)))
    (backend (snd (leave_try self (Some (Paged.token n0)) r w))).
Proof.
  intros Hidx Hcur. unfold leave_try, try_finally.
  destruct (paged_release self x w Hcur) as (w' & -> & Hc & Hi).
  simpl. split; [congruence | exact Hc].
Qed.

Lemma paged_for_hit_in_hits (self : ElasticsearchClient.t)
    (x : list Hit * nat) (page : list Hit) (w : world Paged.t) :
  Paged.indices (backend w) = I0 ->
  Paged.cursors (backend w) = <[Paged.token n0 := x]> C0 ->
  tracks_cursor C0 I0 n0
    (snd (fst (for_hit_in_hits self (Some (Paged.token n0)) page w)))
    (backend (snd (for_hit_in_hits self (Some (Paged.token n0)) page w))).
Proof.
  intros Hidx Hcur. unfold for_hit_in_hits.
  destruct page as [|hit rest].
  - now apply paged_leave_try with x.
  - simpl. split; [exact Hidx|]. split; [reflexivity | eauto].
Qed.

Lemma act_tracks_cursor (a : action) (g : generator) (w : world Paged.t) :
  tracks_cursor C0 I0 n0 g (backend w) ->
  tracks_cursor C0 I0 n0 (fst (act a g w)) (backend (snd (act a g w))).
Proof.
  intros [Hidx Hg].
  destruct a, g as [self index q qs size|self scroll_id page pending|];
    simpl in *.
  - (* first pull *)
    destruct Hg as [Hcur Hn]. unfold request. simpl. unfold Paged.search.
    destruct (Paged.indices (backend w) !! index) as [stored|];
      [|simpl; split; assumption].
    destruct (size <=? 0)%Z; [simpl; split; assumption|].
    simpl. rewrite Hn, Hcur.
    match goal with
    | |- context [for_hit_in_hits ?c _ ?page ?w1] =>
        pose proof (@paged_for_hit_in_hits c
                      (drop (Z.to_nat size)
                            (List.filter
                               (fun h => matches (query_body q qs) (_source h))
                               stored), Z.to_nat size)
                      page w1 Hidx eq_refl) as Hstep;
        destruct (for_hit_in_hits c (Some (Paged.token n0)) page w1)
          as [[r g1] w2]
    end.
    exact Hstep.
  - (* later pull *)
    destruct Hg as [-> [x Hcur]]. unfold resume.
    destruct pending as [|hit pending].
    + destruct page as [|hit0 page].
      * pose proof (@paged_leave_try self x (Ok StopIteration) w Hidx Hcur)
          as Hstep.
        destruct (leave_try _ _ _ _) as [[r g1] w2]. exact Hstep.
      * unfold request. simpl. unfold Paged.scroll.
        rewrite Hcur, lookup_insert_eq. destruct x as [remaining n].
        simpl. rewrite insert_insert_eq.
        match goal with
        | |- context [for_hit_in_hits ?c _ ?page ?w1] =>
            pose proof (@paged_for_hit_in_hits c (drop n remaining, n)
                          page w1 Hidx eq_refl) as Hstep;
            destruct (for_hit_in_hits c (Some (Paged.token n0)) page w1)
              as [[r g1] w2]
        end.
        exact Hstep.
    + simpl. split; [exact Hidx|]. split; [reflexivity | eauto].
  - simpl. split; assumption.
  - (* closing a generator that never ran *)
    destruct Hg as [Hcur _]. split; assumption.
  - (* closing a suspended generator *)
    destruct Hg as [-> [x Hcur]].
    destruct (paged_release self x w Hcur) as (w' & -> & Hc & Hi).
    simpl. split; [congruence | exact Hc].
  - simpl. split; assumption.
Qed.

Lemma drive_tracks_cursor (actions : list action) :
  forall (g : generator) (w : world Paged.t),
    tracks_cursor C0 I0 n0 g (backend w) ->
    tracks_cursor C0 I0 n0 (fst (drive actions g w))
                  (backend (snd (drive actions g w))).
Proof.
  induction actions as [|a actions IH]; intros g w Hinv; simpl; [exact Hinv|].
  pose proof (@act_tracks_cursor a g w Hinv) as Hstep.
  destruct (act a g w) as [g1 w1]. now apply IH.
Qed.

End PagedCursors.

(** X8.  Against the paging service a finished query leaves no cursor
    behind: however it ended (exhaustion, a rejected search, the
    consumer closing it midway), the cursor table and the indices are
    what they were before the query. *)
Theorem paged_query_leaves_no_cursor :
  forall (matches : Dict -> Dict -> bool) (self : ElasticsearchClient.t)
         (index : string) (q : option Dict) (qs : option string) (size : Z)
         (actions : list action) (w : world Paged.t),
    Paged.cursors (backend w) !! Paged.token (Paged.issued (backend w))
    = None ->
    fst (@drive _ (Paged.service matches) actions
           (Created self index q qs size) w) = Finished ->
    Paged.cursors
      (backend (snd (@drive _ (Paged.service matches) actions
                       (Created self index q qs size) w)))
    = Paged.cursors (backend w)
    /\ Paged.indices
         (backend (snd (@drive _ (Paged.service matches) actions
                          (Created self index q qs size) w)))
       = Paged.indices (backend w).
Proof.
  intros matches self index q qs size actions w Hfresh Hfin.
  pose proof (@drive_tracks_cursor matches (Paged.cursors (backend w))
                (Paged.indices (backend w)) (Paged.issued (backend w))
                Hfresh actions (Created self index q qs size) w) as Hinv.
  destruct Hinv as [Hi Hc].
  - split; [reflexivity|]. split; reflexivity.
  - unfold paged_service in Hc, Hi. rewrite Hfin in Hc.
    split; [exact Hc | exact Hi].
Qed.

(* ===================================================================== *)
(** * Further properties of the e-mail script *)
(* ===================================================================== *)

Section MoreScriptProperties.
Import send_email.
Context {H : Type} `{HO : Host H}.

Lemma syscall_spec {A} (op : H -> result A * H) (p : process H) :
  syscall op p
  = (fst (op (host p)),
     {| host := snd (op (host p)); stdout := stdout p; stderr := stderr p |}).
Proof. unfold syscall. now destruct (op (host p)). Qed.

(** ** [create_message] *)



(** ** [parse_arguments] *)

(** X11.  Arguments that [parse_arguments] returns are the parser's own, name
    at least one content file, and every content file they name
    answered the existence check with [True]; nothing was printed. *)
Theorem parse_arguments_accepts_only_valid :
  forall (p p' : process H) (args : Namespace),
    parse_arguments p = (Ok (Args args), p') ->
    let h1 := snd (parse_args (host p)) in
    let h2 := match text_file args with
              | Some f => snd (path_exists f h1)
              | None => h1
              end in
    fst (parse_args (host p)) = Ok (Args args)
    /\ (is_not_None (text_file args) || is_not_None (html_file args) = true)
    /\ (forall f, text_file args = Some f ->
          fst (path_exists f h1) = Ok true)
    /\ (forall f, html_file args = Some f ->
          fst (path_exists f h2) = Ok true)
    /\ stdout p' = stdout p
    /\ stderr p' = stderr p.
Proof.
  intros p p' args.
  unfold parse_arguments, bind. rewrite syscall_spec.
  destruct (parse_args (host p)) as [[[a|code]|e] h1]; simpl;
    try discriminate.
  destruct (text_file a) as [tf|] eqn:Htf, (html_file a) as [hf|] eqn:Hhf;
    simpl; unfold require_exists, parser_error, bind, ret, print_stderr;
    rewrite ?syscall_spec; simpl.
  - destruct (path_exists tf h1) as [[[|]|e] h2] eqn:E1; simpl;
      try discriminate.
    rewrite syscall_spec. simpl.
    destruct (path_exists hf h2) as [[[|]|e] h3] eqn:E2; simpl;
      try discriminate.
    intros [= <- <-]. rewrite Htf, Hhf, E1. simpl.
    repeat split; intros f [= <-]; rewrite ?E1, ?E2; reflexivity.
  - destruct (path_exists tf h1) as [[[|]|e] h2] eqn:E1; simpl;
      try discriminate.
    intros [= <- <-]. rewrite Htf, Hhf, E1. simpl.
    repeat split; try discriminate; intros f [= <-]; rewrite ?E1; reflexivity.
  - destruct (path_exists hf h1) as [[[|]|e] h2] eqn:E1; simpl;
      try discriminate.
    intros [= <- <-]. rewrite Htf, Hhf. simpl.
    repeat split; try discriminate; intros f [= <-]; rewrite ?E1; reflexivity.
  - discriminate.
Qed.


(** ** [main] *)

(** X13.  A [SystemExit] of the argument parsing is not caught by [main]: the
    exit status of the script is the parser's (2 for arguments that are
    refused), no message is built or sent, and [main] prints nothing. *)
Theorem main_passes_SystemExit :
  forall (p p1 : process H) (code : Z),
    parse_arguments p = (Ok (SystemExit code), p1) ->
    main p = (Ok (Exits code), p1) /\ exit_status p = code.
Proof.
  intros p p1 code Hparse.
  assert (Hmain : main p = (Ok (Exits code), p1)).
  { unfold main, try_except, main_try.
    erewrite bind_Ok by exact Hparse. reflexivity. }
  split; [exact Hmain|]. unfold exit_status. now rewrite Hmain.
Qed.






(** X15.  Once the arguments are parsed and the message is built, [main]
    hands the message to the SMTP server exactly once, for the host,
    port, sender and recipient of the arguments, over TLS unless
    [--no-ssl] was given; the exit status is 0 when the server took it
    and 1 when sending raised. *)
Theorem main_sends_once :
  forall (p p1 p2 : process H) (args : Namespace) (message : MIMEMultipart),
    parse_arguments p = (Ok (Args args), p1) ->
    create_message (sender_name args) (sender_email args)
      (recipient_name args) (recipient_email args)
      (text_file args) (html_file args) p1 = (Ok message, p2) ->
    let sent :=
      (if no_ssl args then SMTP_send_message else SMTP_SSL_send_message)
        (smtp_host args) (smtp_port args) message
        (sender_email args) (recipient_email args) (host p2) in
    host (snd (main p)) = snd sent
    /\ exit_status p = match fst sent with
                       | Ok _ => 0%Z
                       | Raise _ => 1%Z
                       end.
Proof.
  intros p p1 p2 args message Hparse Hcreate. cbv zeta.
  assert (Htry : main_try p
                 = (_ <- send_email (smtp_host args) (smtp_port args)
                           (negb (no_ssl args)) (sender_email args)
                           (recipient_email args) message ;;
                    _ <- print "Email sent successfully" ;;
                    ret (Return 0)) p2).
  { unfold main_try.
    rewrite (@bind_Ok _ _ _ _ _ _ _ _ Hparse). cbv beta iota.
    rewrite (@bind_Ok _ _ _ _ _ _ _ _ Hcreate). reflexivity. }
  unfold exit_status, main, try_except. rewrite Htry.
  unfold bind, send_email, syscall.
  destruct (no_ssl args); simpl;
    match goal with
    | |- context [fst ?t] => destruct t as [[[]|e] h3]
    end; simpl;
    try (destruct (isinstance_OSError_or_SMTPException e)); simpl;
    split; reflexivity.
Qed.

End MoreScriptProperties.

(* ===================================================================== *)
(** * The further properties on concrete runs *)
(* ===================================================================== *)


Lemma upload_documents_request_count_witness :
  upload_documents Example.client "logs" [] (Example.failing_upload 0)
  = (Ok [], Example.failing_upload 0).
Proof.
  destruct (@upload_documents_request_count _ Scripted.service
              Example.client "logs" [] (Example.failing_upload 0))
    as (evs & _ & _ & _ & _ & Hempty).
  apply Hempty. reflexivity.
Defined.

Lemma pull_sends_at_most_one_fetch_witness :
  exists evs,
    log (snd (gen_next (Created Example.client "logs" None None 100)
                       Example.two_pages))
    = log Example.two_pages ++ evs
    /\ length evs <= 1
    /\ Forall (fun ev => is_fetch ev = true) evs.
Proof.
  destruct (@pull_sends_at_most_one_fetch _ Scripted.service
              (Created Example.client "logs" None None 100)
              Example.two_pages) as (evs & Hlog & _ & Hyield & _).
  exists evs. split; [exact Hlog|].
  destruct (Hyield (Example.doc 1) eq_refl) as (Hlen & Hfetch & _).
  split; assumption.
Defined.

Lemma consume_yields_what_was_received_witness :
  exists documents g' w' evs,
    consume 5 (Created Example.client "logs" None None 100) []
            Example.two_pages = Some (Ok documents, g', w')
    /\ log w' = log Example.two_pages ++ evs
    /\ documents = map _source (received evs)
    /\ g' = Finished.
Proof.
  assert (Hrun : exists documents g' w',
             consume 5 (Created Example.client "logs" None None 100) []
                     Example.two_pages = Some (Ok documents, g', w')).
  { vm_compute. eauto. }
  destruct Hrun as (documents & g' & w' & Hrun).
  exists documents, g', w'.
  destruct (@consume_yields_what_was_received _ Scripted.service 5
              Example.client "logs" None None 100 Example.two_pages
              documents g' w' Hrun) as (evs & Hlog & Hdocs & Hfin).
  exists evs. auto.
Defined.

Lemma paged_query_leaves_no_cursor_witness :
  Paged.cursors
    (backend (snd (@drive _ (Paged.service Example.everything) [Next; Close]
                     (Created Example.client "logs" None None 2)
                     Example.three_documents)))
  = Paged.cursors (backend Example.three_documents)
  /\ Paged.indices
       (backend (snd (@drive _ (Paged.service Example.everything)
                        [Next; Close]
                        (Created Example.client "logs" None None 2)
                        Example.three_documents)))
     = Paged.indices (backend Example.three_documents).
Proof.
  apply (@paged_query_leaves_no_cursor Example.everything Example.client
           "logs" None None 2 [Next; Close] Example.three_documents).
  - vm_compute. reflexivity.
  - vm_compute. reflexivity.
Defined.



Lemma parse_arguments_accepts_only_valid_witness :
  send_email.parse_arguments (Example.mail_host (Ok tt))
  = (Ok (send_email.Args Example.arguments), Example.mail_host (Ok tt))
  /\ fst (send_email.path_exists "body.txt"
            (send_email.host (Example.mail_host (Ok tt)))) = Ok true.
Proof.
  split; [reflexivity|].
  destruct (@parse_arguments_accepts_only_valid _ ScriptedHost.host
              (Example.mail_host (Ok tt)) (Example.mail_host (Ok tt))
              Example.arguments eq_refl) as (_ & _ & Htext & _).
  exact (Htext "body.txt" eq_refl).
Defined.


Lemma main_passes_SystemExit_witness :
  send_email.exit_status
    (Example.host_with (send_email.Args (Example.arguments_with None None)) [])
  = 2%Z.
Proof.
  eapply (@main_passes_SystemExit _ ScriptedHost.host).
  reflexivity.
Defined.

Lemma main_sends_once_witness :
  send_email.host (snd (send_email.main (Example.mail_host (Ok tt))))
  = send_email.host (Example.mail_host (Ok tt))
  /\ send_email.exit_status (Example.mail_host (Ok tt)) = 0%Z.
Proof.
  assert (Hrun : exists message p2,
             @send_email.create_message _ ScriptedHost.host (Some "Hub")
               "hub@example.org" None "ops@example.org"
               (Some "body.txt") None (Example.mail_host (Ok tt))
             = (Ok message, p2)
             /\ send_email.host p2
                = send_email.host (Example.mail_host (Ok tt))).
  { vm_compute. eauto. }
  destruct Hrun as (message & p2 & Hrun & Hhost).
  destruct (@main_sends_once _ ScriptedHost.host
              (Example.mail_host (Ok tt)) (Example.mail_host (Ok tt)) p2
              Example.arguments message eq_refl Hrun) as [Hsent Hstatus].
  split.
  - rewrite Hsent. simpl. exact Hhost.
  - rewrite Hstatus. simpl. rewrite Hhost. reflexivity.
Defined.

(** The order of requests is a real constraint: a scroll with a stale
    token, and a scroll after the release, are both out of order. *)
Example stale_token_is_out_of_order :
  protocol
    [EvSearch "logs" (query_body None None) scroll_timeout 100
       (Ok {| _scroll_id := Some "c1"; hits_hits := [Example.hit "a" 1] |});
     EvScroll (Some "c1") scroll_timeout
       (Ok {| _scroll_id := Some "c2"; hits_hits := [Example.hit "b" 2] |});
     EvScroll (Some "c1") scroll_timeout
       (Ok {| _scroll_id := Some "c2"; hits_hits := [] |})]
    Idle = None
  /\ protocol
       [EvSearch "logs" (query_body None None) scroll_timeout 100
          (Ok {| _scroll_id := Some "c1"; hits_hits := [Example.hit "a" 1] |});
        EvClearScroll "c1" (Ok tt);
        EvScroll (Some "c1") scroll_timeout
          (Ok {| _scroll_id := Some "c1"; hits_hits := [] |})]
       Idle = None.
Proof. split; vm_compute; reflexivity. Qed.
